(** * Tech-tree ingestion and view state: a shallow embedding

    The development follows three parts of the repository:

    - the seed script [scripts/add-fossilfuel-data.ts], kept in
      [src/next.config.ts] (scalar and edge normalisation, the three
      sanity checks and [main], which replaces the stored node and edge
      collections);
    - the seed script [scripts/add-nuclear-tt.ts], kept in the same file
      (the conversion of a Python literal to JSON and a [main] that stores
      the edges as they are);
    - the [TechTree] React component, kept in [src/unnamed/part_002]
      (categories, category filter, one-hop neighbourhood, edit mode and
      the handlers that move the view state).

    JavaScript objects read through fixed keys are records whose optional
    keys are [option] fields ([None]: the key is absent); sets of
    identifiers are [gset string]; loops with an accumulator are left
    folds; [main] runs in a small state-and-exception monad over the
    store, the console and the process exit code. *)

From Stdlib Require Import Ascii String.
From stdpp Require Import base strings list gmap pretty.
From stdpp Require Import sorting.

Local Open Scope string_scope.
Local Open Scope list_scope.
Local Open Scope nat_scope.

(** ** JavaScript values the script reads *)

(** [String(n)] for a JavaScript number is the only operation the script
    performs on numbers; it is an interface of the number type. *)
Class JsNumber (number : Type) := Number_toString : number → string.

(** The integers a JavaScript number holds exactly, those strictly
    between [-2^53] and [2^53] ([Number.isSafeInteger]). They are far
    below [1e21], where [String] turns to the exponent form, and print in
    decimal, as [String(5) = "5"] and [String(-3) = "-3"]. *)
Record SafeInteger := {
  integer : Z;
  integer_safe : bool_decide (Z.abs integer < 2 ^ 53)%Z;
}.

#[export] Instance SafeInteger_JsNumber : JsNumber SafeInteger :=
  λ n, pretty (integer n).

(** [string | number | null | undefined], the type of a raw TRL field. *)
Inductive TrlValue (number : Type) : Type :=
  | TrlUndefined
  | TrlNull
  | TrlString (s : string)
  | TrlNumber (n : number).

Arguments TrlUndefined {number}.
Arguments TrlNull {number}.
Arguments TrlString {number} s.
Arguments TrlNumber {number} n.

(** ** Digit runs: the regular expression [/\d+/] *)

Module Digits.

(** [\d] is exactly the ASCII digits [0-9]. *)
Definition isDigit (c : ascii) : bool :=
  let n := N_of_ascii c in ((48 <=? n) && (n <=? 57))%N.

(** The longest prefix of [s] made of digits. *)
Fixpoint takeDigits (s : string) : string :=
  match s with
  | String c rest => if isDigit c then String c (takeDigits rest) else ""
  | EmptyString => ""
  end.

(** [s.match(/\d+/)]: the regular expression engine tries every start
    position from the left and, at the first one where a digit stands,
    consumes digits greedily; [None] is JavaScript's [null] and
    [Some m] is [match[0]]. *)
Fixpoint matchDigits (s : string) : option string :=
  match s with
  | EmptyString => None
  | String c rest =>
      if isDigit c then Some (String c (takeDigits rest)) else matchDigits rest
  end.

(** Every character of [s] satisfies [p]. *)
Fixpoint allChars (p : ascii → bool) (s : string) : bool :=
  match s with
  | EmptyString => true
  | String c rest => p c && allChars p rest
  end.

Definition allDigits (s : string) : bool := allChars isDigit s.
Definition noDigit (s : string) : bool := allChars (λ c, negb (isDigit c)) s.
Definition hasDigit (s : string) : bool := negb (noDigit s).

(** The text is over, or goes on with a character that is not a digit. *)
Definition stopsRun (s : string) : bool :=
  match s with
  | EmptyString => true
  | String c _ => negb (isDigit c)
  end.

(** The words of the specification: [run] is the first maximal run of
    digits of [text] when no digit comes before it, it is a non-empty
    block of digits, and it cannot be extended to the right. *)
Definition firstDigitRun (text run : string) : Prop :=
  ∃ pre post,
    text = pre +:+ run +:+ post ∧
    noDigit pre = true ∧
    run ≠ "" ∧ allDigits run = true ∧
    stopsRun post = true.

End Digits.

(** ** The seed script *)

Module Seed.

(** A raw relation record, single-target [{source, target}] or
    multi-target [{source, targets}]. A field is [None] when the key is
    absent; [raw_targets] is [Some] only when the key is present and holds
    an array, the one case in which the script looks at it. *)
Record RawEdge := {
  raw_source : option string;
  raw_target : option string;
  raw_targets : option (list string);
}.

Record NormalizedEdge := {
  edge_id : string;
  edge_source : string;
  edge_target : string;
}.

#[export] Instance NormalizedEdge_eq_dec : EqDecision NormalizedEdge.
Proof. solve_decision. Defined.

(** [!sourceId]: an absent source and the empty string are falsy. *)
Definition falsy (v : option string) : bool :=
  match v with
  | None | Some EmptyString => true
  | Some (String _ _) => false
  end.

(** The template [`edge_src_${sourceId}_tgt_${targetId}`]. *)
Definition edgeId (sourceId targetId : string) : string :=
  "edge_src_" +:+ sourceId +:+ "_tgt_" +:+ targetId.

Definition mkEdge (sourceId targetId : string) : NormalizedEdge :=
  {| edge_id := edgeId sourceId targetId;
     edge_source := sourceId;
     edge_target := targetId |}.

(** One turn of the first loop of [normalizeTechTreeEdges]. *)
Definition countEdge (expectedEdgeCount : nat) (edge : RawEdge) : nat :=
  match raw_target edge, raw_targets edge with
  | Some _, _ => expectedEdgeCount + 1
  | None, Some targets => expectedEdgeCount + length targets
  | None, None => expectedEdgeCount
  end.

(** One turn of the second loop: [push] appends at the end. *)
Definition pushEdges (normalizedEdges : list NormalizedEdge) (edge : RawEdge)
    : list NormalizedEdge :=
  if falsy (raw_source edge) then normalizedEdges
  else
    let sourceId := default "" (raw_source edge) in
    match raw_target edge, raw_targets edge with
    | Some targetId, _ => normalizedEdges ++ [mkEdge sourceId targetId]
    | None, Some targets =>
        foldl (λ acc targetId, acc ++ [mkEdge sourceId targetId])
              normalizedEdges targets
    | None, None => normalizedEdges
    end.

Definition expectedCountOf (originalEdges : list RawEdge) : nat :=
  foldl countEdge 0 originalEdges.

Definition normalizedEdgesOf (originalEdges : list RawEdge)
    : list NormalizedEdge :=
  foldl pushEdges [] originalEdges.

(** The ordered pair an edge joins. *)
Definition endpoints (e : NormalizedEdge) : string * string :=
  (edge_source e, edge_target e).

(** What one turn of the counting loop adds to the count. *)
Definition contribution (edge : RawEdge) : nat := countEdge 0 edge.

(** The words of the specification: the targets a record lists, in
    order. A record with a [target] key lists that one target; a record
    without it and with a [targets] array lists the members of the array;
    any other record lists nothing. *)
Definition listedTargets (edge : RawEdge) : list string :=
  match raw_target edge, raw_targets edge with
  | Some targetId, _ => [targetId]
  | None, Some targets => targets
  | None, None => []
  end.

(** The words of the specification for the edge set: every record with a
    source, expanded to one pair per listed target. *)
Definition listedPairs (originalEdges : list RawEdge) : list (string * string) :=
  flat_map (λ edge,
    if falsy (raw_source edge) then []
    else List.map (pair (default "" (raw_source edge))) (listedTargets edge))
    originalEdges.

(** The words of the amended specification: the targets listed by the
    records without a usable source, one for a record with a [target]
    key and the length of the array for a record with a [targets] array.
    It is defined from the records alone, not from the counting loop. *)
Definition skippedCount (originalEdges : list RawEdge) : nat :=
  sum_list (List.map (λ edge, length (listedTargets edge))
    (List.filter (λ edge, falsy (raw_source edge)) originalEdges)).

(** [s.includes(sub)] *)
Fixpoint includes (sub s : string) : bool :=
  String.prefix sub s ||
  match s with
  | EmptyString => false
  | String _ rest => includes sub rest
  end.

(** Insertion-ordered sets of strings, as JavaScript's [Set]: adding a
    member twice keeps its first position. *)
Definition setAdd (s : list string) (x : string) : list string :=
  if bool_decide (x ∈ s) then s else s ++ [x].

Definition newSet (xs : list string) : list string := foldl setAdd [] xs.

Definition setHas (s : list string) (x : string) : bool := bool_decide (x ∈ s).

(** [xs.join(sep)] *)
Fixpoint join (sep : string) (xs : list string) : string :=
  match xs with
  | [] => ""
  | [x] => x
  | x :: rest => x +:+ sep +:+ join sep rest
  end.

Definition nl : string := String (ascii_of_nat 10) "".

Inductive ConsoleEntry :=
  | ConsoleLog (args : list string)
  | ConsoleWarn (args : list string)
  | ConsoleError (args : list string).

(** What the script throws, and what the driver and the parser throw at
    it. *)
Inductive Exception :=
  | FileNotFound (path : string)
  | MalformedSource
  | EdgeSanityCheckFailed (expectedCount actualCount : nat)
  | ReferenceSanityCheckFailed (missing : list string)
  | MongoUriNotSet
  | MongoUnreachable.

Definition message (e : Exception) : string :=
  match e with
  | FileNotFound path => "JSON file not found at path: " +:+ path
  | MalformedSource => "SyntaxError"
  | EdgeSanityCheckFailed expectedCount actualCount =>
      "Edge sanity check FAILED: expected " +:+ pretty expectedCount
      +:+ " edges but got " +:+ pretty actualCount +:+ "."
  | ReferenceSanityCheckFailed missing =>
      "Reference sanity check FAILED. Nodes missing references: "
      +:+ join ", " missing
  | MongoUriNotSet =>
      "MONGODB_URI environment variable is not set. "
      +:+ "Add it to your .env.local file or export it in your shell."
  | MongoUnreachable => "MongoServerSelectionError"
  end.

Definition DB_NAME : string := "fossil_fuels_tt_db".

Definition dq : string := String (ascii_of_nat 34) "".

Section Script.

Context {number unknown : Type} `{!JsNumber number}.

(** A raw node. Optional keys are [option] fields; [extra] holds the keys
    admitted by the index signature [[key: string]: unknown]. *)
Record RawNode := {
  node_id : string;
  node_label : string;
  node_type : string;
  node_category : string;
  trl_current : option (TrlValue number);
  trl_projected_5_10_years : option (TrlValue number);
  description : option string;
  references : option (list string);
  extra : gmap string unknown;
}.

Record TechTreeGraph (E : Type) := {
  nodes : list RawNode;
  edges : list E;
}.
Arguments nodes {E} _.
Arguments edges {E} _.

Record TechTreeData (E : Type) := { graph : TechTreeGraph E }.
Arguments graph {E} _.

(** [String(value)] for a value that is neither [null] nor [undefined]. *)
Definition textualForm (value : TrlValue number) : option string :=
  match value with
  | TrlString s => Some s
  | TrlNumber n => Some (Number_toString n)
  | TrlUndefined | TrlNull => None
  end.

(** [toSingleTrl(value, defaultValue)]; callers that leave the second
    argument out get ["1"]. *)
Definition toSingleTrl (value : TrlValue number) (defaultValue : string)
    : string :=
  match textualForm value with
  | None => defaultValue                        (* value == null *)
  | Some text =>
      match Digits.matchDigits text with
      | Some match0 => match0
      | None => defaultValue
      end
  end.

(** Reading a property: an absent key reads as [undefined]. *)
Definition prop (field : option (TrlValue number)) : TrlValue number :=
  default TrlUndefined field.

Definition present {A} (key : string) (field : option A) : list string :=
  match field with Some _ => [key] | None => [] end.

(** [Object.keys(node)]; the script only asks whether some key passes a
    test, so the order of the keys is immaterial. *)
Definition keys (node : RawNode) : list string :=
  ["id"; "label"; "type"; "category"]
  ++ present "trl_current" (trl_current node)
  ++ present "trl_projected_5_10_years" (trl_projected_5_10_years node)
  ++ present "description" (description node)
  ++ present "references" (references node)
  ++ (map_to_list (extra node)).*1.

Definition unexpectedKeys (node : RawNode) : list string :=
  List.filter
    (λ k, String.prefix "trl_projected" k
          && negb (String.eqb k "trl_projected_5_10_years"))
    (keys node).

(** The callback of [nodes.map] in [normalizeNodes]: the copy
    [{ ...node }] with its TRL fields rewritten. *)
Definition normalizeNode (node : RawNode) : RawNode :=
  let updated :=
    {| node_id := node_id node; node_label := node_label node;
       node_type := node_type node; node_category := node_category node;
       trl_current :=
         Some (TrlString (toSingleTrl (prop (trl_current node)) "1"));
       trl_projected_5_10_years := trl_projected_5_10_years node;
       description := description node; references := references node;
       extra := extra node |} in
  match trl_projected_5_10_years node with
  | Some projected =>
      {| node_id := node_id updated; node_label := node_label updated;
         node_type := node_type updated;
         node_category := node_category updated;
         trl_current := trl_current updated;
         trl_projected_5_10_years :=
           Some (TrlString (toSingleTrl projected "1"));
         description := description updated;
         references := references updated;
         extra := extra updated |}
  | None => updated
  end.

(** *** The store, the console and the monad of [main] *)

Inductive MongoCall :=
  | Connect (uri : string)
  | Ping
  | DeleteManyNodes
  | DeleteManyEdges
  | InsertManyNodes (docs : list RawNode)
  | InsertManyEdges (docs : list NormalizedEdge)
  | Close.

(** The calls that change a collection. *)
Definition isWrite (c : MongoCall) : bool :=
  match c with
  | DeleteManyNodes | DeleteManyEdges
  | InsertManyNodes _ | InsertManyEdges _ => true
  | Connect _ | Ping | Close => false
  end.

Record Db := {
  nodesCollection : list RawNode;
  edgesCollection : list NormalizedEdge;
}.

Record World := {
  db : Db;
  calls : list MongoCall;
  console : list ConsoleEntry;
  exitCode : option nat;
}.

Inductive Result (A : Type) :=
  | Ok (a : A)
  | Thrown (e : Exception).
Arguments Ok {A} a.
Arguments Thrown {A} e.

Definition M (A : Type) : Type := World → Result A * World.

#[export] Instance M_ret : MRet M := λ A a w, (Ok a, w).

#[export] Instance M_bind : MBind M := λ A B f m w,
  match m w with
  | (Ok a, w') => f a w'
  | (Thrown e, w') => (Thrown e, w')
  end.

#[export] Instance M_throw : MThrow Exception M := λ A e w, (Thrown e, w).

(** The world after [entries] went to the console. *)
Definition logged (entries : list ConsoleEntry) (w : World) : World :=
  {| db := db w; calls := calls w;
     console := console w ++ entries; exitCode := exitCode w |}.

Definition print (entry : ConsoleEntry) : M unit := λ w,
  (Ok tt, logged [entry] w).

Definition console_log (args : list string) : M unit := print (ConsoleLog args).
Definition console_warn (args : list string) : M unit := print (ConsoleWarn args).
Definition console_error (args : list string) : M unit := print (ConsoleError args).

Definition setExitCode (code : nat) : M unit := λ w,
  (Ok tt, {| db := db w; calls := calls w;
             console := console w; exitCode := Some code |}).

(** A driver call: it is recorded and the database becomes [db']. *)
Definition driver {A} (c : MongoCall) (a : A) (db' : Db) : M A := λ w,
  (Ok a, {| db := db'; calls := calls w ++ [c];
            console := console w; exitCode := exitCode w |}).

Definition getDb : M Db := λ w, (Ok (db w), w).

(** [try { body } catch (err) { handler(err) } finally { finalizer }] *)
Definition tryCatchFinally (body : M unit) (handler : Exception → M unit)
    (finalizer : M unit) : M unit := λ w,
  let '(r, w1) :=
    match body w with
    | (Ok tt, w') => (Ok tt, w')
    | (Thrown e, w') => handler e w'
    end in
  match finalizer w1 with
  | (Ok tt, w2) => (r, w2)
  | (Thrown e, w2) => (Thrown e, w2)
  end.

(** *** Normalisation and the sanity checks *)

Definition normalizeNodes (nodes : list RawNode) : M (list RawNode) :=
  let normalized := List.map normalizeNode nodes in
  let badNodes :=
    List.map node_id
      (List.filter (λ node, 0 <? length (unexpectedKeys node)) nodes) in
  (if 0 <? length badNodes
   then console_warn ["WARNING: Nodes with inconsistent trl_projected keys:";
                      join ", " badNodes]
   else console_log ["TRL key consistency check passed: no unexpected keys."]);;
  mret normalized.

Definition normalizeTechTreeEdges (treeData : TechTreeData RawEdge)
    : TechTreeData NormalizedEdge * nat :=
  let originalEdges := edges (graph treeData) in
  let expectedEdgeCount := expectedCountOf originalEdges in
  let normalizedEdges := normalizedEdgesOf originalEdges in
  let normalizedData :=
    {| graph := {| nodes := nodes (graph treeData);
                   edges := normalizedEdges |} |} in
  (normalizedData, expectedEdgeCount).

Definition runEdgeSanityCheck (actualCount expectedCount : nat) : M unit :=
  if bool_decide (actualCount ≠ expectedCount)
  then mthrow (EdgeSanityCheckFailed expectedCount actualCount)
  else console_log ["Edge sanity check passed: " +:+ pretty actualCount
                    +:+ " edges match expected count."].

(** [!n.references || n.references.length === 0] *)
Definition lacksReferences (n : RawNode) : bool :=
  match references n with
  | None => true
  | Some refs => length refs =? 0
  end.

Definition runReferenceSanityCheck (nodes : list RawNode) : M unit :=
  let missing := List.map node_id (List.filter lacksReferences nodes) in
  if 0 <? length missing
  then mthrow (ReferenceSanityCheckFailed missing)
  else console_log
         ["Reference sanity check passed: all nodes have references."].

Definition endpointIds (edges : list NormalizedEdge) : list string :=
  foldl (λ s e, setAdd (setAdd s (edge_source e)) (edge_target e)) [] edges.

Definition missingInNodes (nodes : list RawNode)
    (edges : list NormalizedEdge) : list string :=
  let nodeIds := newSet (List.map node_id nodes) in
  List.filter (λ id, negb (setHas nodeIds id)) (endpointIds edges).

Definition isolatedNodes (nodes : list RawNode)
    (edges : list NormalizedEdge) : list string :=
  let nodeIds := newSet (List.map node_id nodes) in
  List.filter (λ id, negb (setHas (endpointIds edges) id)) nodeIds.

Definition runIdConsistencyCheck (nodes : list RawNode)
    (edges : list NormalizedEdge) : M unit :=
  console_log [nl +:+ "--- ID Consistency Check ---"];;
  (if length (missingInNodes nodes edges) =? 0
   then console_log ["All source/target IDs in edges exist as nodes."]
   else console_warn ["WARNING: IDs present in edges but NOT found in nodes:";
                      join ", " (missingInNodes nodes edges)]);;
  (if length (isolatedNodes nodes edges) =? 0
   then console_log ["All nodes are referenced by at least one edge."]
   else console_warn ["WARNING: Nodes not referenced by any edge (isolated):";
                      join ", " (isolatedNodes nodes edges)]);;
  console_log ["--- Check Complete ---" +:+ nl].

(** *** [main] *)

(** What [main] finds at [JSON_FILE_PATH]. *)
Inductive SourceFile :=
  | FileMissing
  | FileUnparseable
  | FileParsed (techTree : TechTreeData RawEdge).

(** The surroundings of a run. Once the ping has succeeded the four
    collection calls are taken to succeed. *)
Record Env := {
  JSON_FILE_PATH : string;
  sourceFile : SourceFile;
  MONGODB_URI : option string;
  mongoUp : bool;
}.

Definition readSource (env : Env) : M (TechTreeData RawEdge) :=
  match sourceFile env with
  | FileMissing => mthrow (FileNotFound (JSON_FILE_PATH env))
  | FileUnparseable => mthrow MalformedSource
  | FileParsed techTree => mret techTree
  end.

Definition connect (env : Env) (uri : string) : M unit :=
  d ← getDb;
  driver (Connect uri) () d;;
  if mongoUp env then driver Ping () d else mthrow MongoUnreachable.

(** [deleteMany({})] answers with the number of documents removed. *)
Definition deleteManyNodes : M nat :=
  d ← getDb;
  driver DeleteManyNodes (length (nodesCollection d))
    {| nodesCollection := []; edgesCollection := edgesCollection d |}.

Definition deleteManyEdges : M nat :=
  d ← getDb;
  driver DeleteManyEdges (length (edgesCollection d))
    {| nodesCollection := nodesCollection d; edgesCollection := [] |}.

(** [insertMany(docs)] answers with the number of documents inserted. *)
Definition insertManyNodes (docs : list RawNode) : M nat :=
  d ← getDb;
  driver (InsertManyNodes docs) (length docs)
    {| nodesCollection := nodesCollection d ++ docs;
       edgesCollection := edgesCollection d |}.

Definition insertManyEdges (docs : list NormalizedEdge) : M nat :=
  d ← getDb;
  driver (InsertManyEdges docs) (length docs)
    {| nodesCollection := nodesCollection d;
       edgesCollection := edgesCollection d ++ docs |}.

Definition close : M unit := d ← getDb; driver Close () d.

Definition seed (env : Env) (uri : string) (finalNodes : list RawNode)
    (finalEdges : list NormalizedEdge) : M unit :=
  connect env uri;;
  console_log ["   Connected to MongoDB successfully."];;
  console_log [nl +:+ "Clearing existing data in " +:+ dq +:+ DB_NAME
               +:+ dq +:+ "..."];;
  deletedNodes ← deleteManyNodes;
  deletedEdges ← deleteManyEdges;
  console_log ["   Removed " +:+ pretty deletedNodes +:+ " node(s) and "
               +:+ pretty deletedEdges +:+ " edge(s)."];;
  console_log [nl +:+ "Inserting normalized data..."];;
  (if 0 <? length finalNodes
   then insertedCount ← insertManyNodes finalNodes;
        console_log ["   Inserted " +:+ pretty insertedCount
                     +:+ " document(s) into " +:+ dq +:+ "nodes" +:+ dq +:+ "."]
   else console_warn ["   No nodes to insert."]);;
  (if 0 <? length finalEdges
   then insertedCount ← insertManyEdges finalEdges;
        console_log ["   Inserted " +:+ pretty insertedCount
                     +:+ " document(s) into " +:+ dq +:+ "edges" +:+ dq +:+ "."]
   else console_warn ["   No edges to insert."]);;
  console_log [nl +:+ "Successfully seeded " +:+ pretty (length finalNodes)
               +:+ " nodes and " +:+ pretty (length finalEdges)
               +:+ " edges into " +:+ dq +:+ DB_NAME +:+ dq +:+ "."].

Definition main (env : Env) : M unit :=
  (* 1. Read raw JSON data from disk *)
  console_log [nl +:+ "Reading data from: " +:+ JSON_FILE_PATH env];;
  techTree ← readSource env;
  console_log ["   Loaded " +:+ pretty (length (nodes (graph techTree)))
               +:+ " nodes and " +:+ pretty (length (edges (graph techTree)))
               +:+ " raw edges."];;
  (* 2. Normalise TRL fields on nodes *)
  console_log [nl +:+ "Normalizing node TRL fields..."];;
  normalizedNodes ← normalizeNodes (nodes (graph techTree));
  let techTree :=
    {| graph := {| nodes := normalizedNodes;
                   edges := edges (graph techTree) |} |} in
  (* 3. Normalise edges *)
  console_log [nl +:+ "Normalizing edges..."];;
  let originalEdgeCount := length (edges (graph techTree)) in
  let '(normalizedData, expectedEdgeCount) := normalizeTechTreeEdges techTree in
  let finalEdges := edges (graph normalizedData) in
  let finalNodes := nodes (graph normalizedData) in
  console_log ["   Original edge count : " +:+ pretty originalEdgeCount];;
  console_log ["   Expected after fan-out: " +:+ pretty expectedEdgeCount];;
  console_log ["   Actual after fan-out : " +:+ pretty (length finalEdges)];;
  (* 4. Run sanity checks *)
  console_log [nl +:+ "Running sanity checks..."];;
  runEdgeSanityCheck (length finalEdges) expectedEdgeCount;;
  runReferenceSanityCheck finalNodes;;
  runIdConsistencyCheck finalNodes finalEdges;;
  (* 5. Connect to MongoDB and seed *)
  if falsy (MONGODB_URI env) then mthrow MongoUriNotSet
  else
    let mongoUri := default "" (MONGODB_URI env) in
    console_log ["Connecting to MongoDB..."];;
    tryCatchFinally
      (seed env mongoUri finalNodes finalEdges)
      (λ err,
         console_error [nl +:+ "An error occurred during the seeding process:";
                        message err];;
         setExitCode 1)
      (close;; console_log ["MongoDB connection closed."]).

End Script.

Arguments nodes {number unknown E} _.
Arguments edges {number unknown E} _.
Arguments graph {number unknown E} _.
Arguments Build_TechTreeGraph {number unknown E} _ _.
Arguments Build_TechTreeData {number unknown E} _.
Arguments Ok {A} a.
Arguments Thrown {A} e.

End Seed.

(** ** The [TechTree] component *)

Module View.

(** Modelled from the spec: the node and edge types of [@/lib/types] and
    [@xyflow/react], which the component imports; only the fields the
    component reads are kept. A node has an identifier and a data part
    whose category may be absent; an edge has an identifier, a source and
    a target. *)
Record NodeData := {
  label : string;
  category : option string;
}.

Module UiNode.
Record t := { id : string; data : NodeData }.
End UiNode.

Module Edge.
Record t := { id : string; source : string; target : string }.
End Edge.

#[export] Instance NodeData_eq_dec : EqDecision NodeData.
Proof. solve_decision. Defined.
#[export] Instance UiNode_eq_dec : EqDecision UiNode.t.
Proof. solve_decision. Defined.
#[export] Instance Edge_eq_dec : EqDecision Edge.t.
Proof. solve_decision. Defined.

Record TechTree := {
  tt_nodes : list UiNode.t;
  tt_edges : list Edge.t;
}.

Record HighlightedElements := {
  nodeIds : gset string;
  edgeIds : gset string;
}.

(** The grouping modes ['None'] and ['Category']. *)
Inductive GroupingMode := ModeNone | ModeCategory.

(** *** Pure view operations *)

(** The callback of [allEdges.forEach] in [findConnectedElements]. *)
Definition visitEdge (nodeId : string) (acc : HighlightedElements)
    (edge : Edge.t) : HighlightedElements :=
  if bool_decide (Edge.source edge = nodeId ∨ Edge.target edge = nodeId) then
    let connectedEdgeIds := edgeIds acc ∪ {[ Edge.id edge ]} in
    let connectedNodeIds := nodeIds acc in
    let connectedNodeIds :=
      if bool_decide (Edge.source edge = nodeId)
      then connectedNodeIds ∪ {[ Edge.target edge ]} else connectedNodeIds in
    let connectedNodeIds :=
      if bool_decide (Edge.target edge = nodeId)
      then connectedNodeIds ∪ {[ Edge.source edge ]} else connectedNodeIds in
    {| nodeIds := connectedNodeIds; edgeIds := connectedEdgeIds |}
  else acc.

Definition findConnectedElements (nodeId : string) (allEdges : list Edge.t)
    : HighlightedElements :=
  foldl (visitEdge nodeId) {| nodeIds := {[ nodeId ]}; edgeIds := ∅ |} allEdges.

(** [n.data.category === selectedCategory]: an absent category equals no
    string. *)
Definition inCategory (selectedCategory : string) (n : UiNode.t) : bool :=
  bool_decide (category (UiNode.data n) = Some selectedCategory).

(** The category filter at the head of [loadLayout]. *)
Definition filteredTechTree (techTree : TechTree) (selectedCategory : string)
    : TechTree :=
  if bool_decide (selectedCategory ≠ "All") then
    {| tt_nodes := List.filter (inCategory selectedCategory) (tt_nodes techTree);
       tt_edges :=
         List.filter
           (λ edge,
              let sourceExists :=
                existsb (λ n, bool_decide (UiNode.id n = Edge.source edge)
                              && inCategory selectedCategory n)
                        (tt_nodes techTree) in
              let targetExists :=
                existsb (λ n, bool_decide (UiNode.id n = Edge.target edge)
                              && inCategory selectedCategory n)
                        (tt_nodes techTree) in
              sourceExists && targetExists)
           (tt_edges techTree) |}
  else techTree.

(** *** The state of the component and its setters *)

Record State := {
  isLoading : bool;
  nodes : list UiNode.t;
  edges : list Edge.t;
  selectedNode : option UiNode.t;
  highlightedElements : HighlightedElements;
  groupingMode : GroupingMode;
  showingRelatedNodes : option string;
  showOnlyConnected : bool;
  searchInput : string;
  searchTerm : string;
  isEditing : bool;
  isPanelExpanded : bool;
  showLegend : bool;
  showOptions : bool;
  selectedCategory : string;
}.

Definition noHighlight : HighlightedElements :=
  {| nodeIds := ∅; edgeIds := ∅ |}.

(** The initial values given to [useState]. *)
Definition initialState : State :=
  {| isLoading := true; nodes := []; edges := []; selectedNode := None;
     highlightedElements := noHighlight; groupingMode := ModeNone;
     showingRelatedNodes := None; showOnlyConnected := false;
     searchInput := ""; searchTerm := ""; isEditing := false;
     isPanelExpanded := true; showLegend := false; showOptions := false;
     selectedCategory := "All" |}.

Definition setSelectedNode (v : option UiNode.t) (s : State) : State :=
  {| isLoading := isLoading s; nodes := nodes s; edges := edges s;
     selectedNode := v;
     highlightedElements := highlightedElements s;
     groupingMode := groupingMode s;
     showingRelatedNodes := showingRelatedNodes s;
     showOnlyConnected := showOnlyConnected s;
     searchInput := searchInput s; searchTerm := searchTerm s;
     isEditing := isEditing s; isPanelExpanded := isPanelExpanded s;
     showLegend := showLegend s; showOptions := showOptions s;
     selectedCategory := selectedCategory s |}.

Definition setHighlightedElements (v : HighlightedElements) (s : State)
    : State :=
  {| isLoading := isLoading s; nodes := nodes s; edges := edges s;
     selectedNode := selectedNode s;
     highlightedElements := v;
     groupingMode := groupingMode s;
     showingRelatedNodes := showingRelatedNodes s;
     showOnlyConnected := showOnlyConnected s;
     searchInput := searchInput s; searchTerm := searchTerm s;
     isEditing := isEditing s; isPanelExpanded := isPanelExpanded s;
     showLegend := showLegend s; showOptions := showOptions s;
     selectedCategory := selectedCategory s |}.

Definition setGroupingMode (v : GroupingMode) (s : State) : State :=
  {| isLoading := isLoading s; nodes := nodes s; edges := edges s;
     selectedNode := selectedNode s;
     highlightedElements := highlightedElements s;
     groupingMode := v;
     showingRelatedNodes := showingRelatedNodes s;
     showOnlyConnected := showOnlyConnected s;
     searchInput := searchInput s; searchTerm := searchTerm s;
     isEditing := isEditing s; isPanelExpanded := isPanelExpanded s;
     showLegend := showLegend s; showOptions := showOptions s;
     selectedCategory := selectedCategory s |}.

Definition setShowingRelatedNodes (v : option string) (s : State) : State :=
  {| isLoading := isLoading s; nodes := nodes s; edges := edges s;
     selectedNode := selectedNode s;
     highlightedElements := highlightedElements s;
     groupingMode := groupingMode s;
     showingRelatedNodes := v;
     showOnlyConnected := showOnlyConnected s;
     searchInput := searchInput s; searchTerm := searchTerm s;
     isEditing := isEditing s; isPanelExpanded := isPanelExpanded s;
     showLegend := showLegend s; showOptions := showOptions s;
     selectedCategory := selectedCategory s |}.

Definition setShowOnlyConnected (v : bool) (s : State) : State :=
  {| isLoading := isLoading s; nodes := nodes s; edges := edges s;
     selectedNode := selectedNode s;
     highlightedElements := highlightedElements s;
     groupingMode := groupingMode s;
     showingRelatedNodes := showingRelatedNodes s;
     showOnlyConnected := v;
     searchInput := searchInput s; searchTerm := searchTerm s;
     isEditing := isEditing s; isPanelExpanded := isPanelExpanded s;
     showLegend := showLegend s; showOptions := showOptions s;
     selectedCategory := selectedCategory s |}.

Definition setSearchInput (v : string) (s : State) : State :=
  {| isLoading := isLoading s; nodes := nodes s; edges := edges s;
     selectedNode := selectedNode s;
     highlightedElements := highlightedElements s;
     groupingMode := groupingMode s;
     showingRelatedNodes := showingRelatedNodes s;
     showOnlyConnected := showOnlyConnected s;
     searchInput := v; searchTerm := searchTerm s;
     isEditing := isEditing s; isPanelExpanded := isPanelExpanded s;
     showLegend := showLegend s; showOptions := showOptions s;
     selectedCategory := selectedCategory s |}.

Definition setSearchTerm (v : string) (s : State) : State :=
  {| isLoading := isLoading s; nodes := nodes s; edges := edges s;
     selectedNode := selectedNode s;
     highlightedElements := highlightedElements s;
     groupingMode := groupingMode s;
     showingRelatedNodes := showingRelatedNodes s;
     showOnlyConnected := showOnlyConnected s;
     searchInput := searchInput s; searchTerm := v;
     isEditing := isEditing s; isPanelExpanded := isPanelExpanded s;
     showLegend := showLegend s; showOptions := showOptions s;
     selectedCategory := selectedCategory s |}.

Definition setIsPanelExpanded (v : bool) (s : State) : State :=
  {| isLoading := isLoading s; nodes := nodes s; edges := edges s;
     selectedNode := selectedNode s;
     highlightedElements := highlightedElements s;
     groupingMode := groupingMode s;
     showingRelatedNodes := showingRelatedNodes s;
     showOnlyConnected := showOnlyConnected s;
     searchInput := searchInput s; searchTerm := searchTerm s;
     isEditing := isEditing s; isPanelExpanded := v;
     showLegend := showLegend s; showOptions := showOptions s;
     selectedCategory := selectedCategory s |}.

Definition setSelectedCategory (v : string) (s : State) : State :=
  {| isLoading := isLoading s; nodes := nodes s; edges := edges s;
     selectedNode := selectedNode s;
     highlightedElements := highlightedElements s;
     groupingMode := groupingMode s;
     showingRelatedNodes := showingRelatedNodes s;
     showOnlyConnected := showOnlyConnected s;
     searchInput := searchInput s; searchTerm := searchTerm s;
     isEditing := isEditing s; isPanelExpanded := isPanelExpanded s;
     showLegend := showLegend s; showOptions := showOptions s;
     selectedCategory := v |}.

(** Statements of a handler run top to bottom: [s |> f |> g] applies [f]
    and then [g]. *)
Notation "s |> f" := (f s) (at level 45, left associativity, only parsing).

(** *** Handlers and effects *)

(** The effect that copies the search box into the search term. *)
Definition syncSearchTerm (s : State) : State :=
  s |> setSearchTerm (searchInput s).

(** [nodes.find((n) => n.id === nodeId)] *)
Definition findNode (nodeId : string) (ns : list UiNode.t) : option UiNode.t :=
  List.find (λ n, bool_decide (UiNode.id n = nodeId)) ns.

(** [innerWidth] is [window.innerWidth] when the handler runs. *)
Definition handleShowDetails (innerWidth : nat) (nodeId : string) (s : State)
    : State :=
  match findNode nodeId (nodes s) with
  | Some node =>
      let connected := findConnectedElements nodeId (edges s) in
      let s := s |> setSelectedNode (Some node)
                 |> setHighlightedElements connected in
      if innerWidth <? 768 then s |> setIsPanelExpanded true else s
  | None => s
  end.

Definition handleShowConnected (nodeId : string) (s : State) : State :=
  match findNode nodeId (nodes s) with
  | Some node =>
      s |> setSelectedNode (Some node)
        |> setShowingRelatedNodes (Some nodeId)
        |> setShowOnlyConnected true
        |> setSearchInput ""
        |> setSearchTerm ""
        |> setHighlightedElements noHighlight
  | None => s
  end.

Definition handleGroupingModeChange (mode : GroupingMode) (s : State) : State :=
  s |> setGroupingMode mode
    |> setSelectedNode None
    |> setShowingRelatedNodes None
    |> setShowOnlyConnected false
    |> setHighlightedElements noHighlight.

Definition handleReset (s : State) : State :=
  s |> setSelectedNode None
    |> setShowingRelatedNodes None
    |> setShowOnlyConnected false
    |> setSearchInput ""
    |> setSearchTerm ""
    |> setSelectedCategory "All"
    |> setHighlightedElements noHighlight.

Definition handleSearchChange (value : string) (s : State) : State :=
  s |> setSearchInput value
    |> setSelectedNode None
    |> setShowingRelatedNodes None
    |> setShowOnlyConnected false
    |> setHighlightedElements noHighlight.

End View.

(** ** Sample documents and states *)

Module Samples.
Import Seed.

Definition single (s t : string) : RawEdge :=
  {| raw_source := Some s; raw_target := Some t; raw_targets := None |}.

Definition multi (s : string) (ts : list string) : RawEdge :=
  {| raw_source := Some s; raw_target := None; raw_targets := Some ts |}.

(** A record that lost its source. *)
Definition sourceless (t : string) : RawEdge :=
  {| raw_source := None; raw_target := Some t; raw_targets := None |}.

Definition node (i : string) (refs : option (list string))
    : @RawNode SafeInteger string :=
  {| node_id := i; node_label := i; node_type := "Technology";
     node_category := "Extraction";
     trl_current := Some (TrlString "7-9 (LWRs); 4-6");
     trl_projected_5_10_years := None;
     description := None; references := refs; extra := ∅ |}.

Definition document (ns : list (@RawNode SafeInteger string))
    (es : list RawEdge) : @TechTreeData SafeInteger string RawEdge :=
  {| graph := {| nodes := ns; edges := es |} |}.

Definition cited (i : string) : @RawNode SafeInteger string :=
  node i (Some ["https://example.org/" +:+ i]).

(** A node rated by a number now and by a range later, with one more
    projection under a key the script does not know. *)
Definition rated (i : string) : @RawNode SafeInteger string :=
  {| node_id := i; node_label := i; node_type := "Technology";
     node_category := "Conversion";
     trl_current := Some (TrlNumber {| integer := 4; integer_safe := I |});
     trl_projected_5_10_years := Some (TrlString "5-6");
     description := Some "rated";
     references := Some ["https://example.org/" +:+ i];
     extra := {[ "trl_projected_15_years" := "8" ]} |}.

(** Three single-target records and one with three targets. *)
Definition fanOut : @TechTreeData SafeInteger string RawEdge :=
  document [cited "A"; cited "B"; cited "C"; cited "D"]
    [single "A" "B"; single "B" "C"; single "C" "D";
     multi "D" ["A"; "B"; "C"]].

Definition lostSource : @TechTreeData SafeInteger string RawEdge :=
  document [cited "A"; cited "B"] [single "A" "B"; sourceless "B"].

(** A record with three targets and an empty source. *)
Definition lostFanOut : @TechTreeData SafeInteger string RawEdge :=
  document [cited "A"; cited "B"]
    [single "A" "B";
     {| raw_source := Some ""; raw_target := None;
        raw_targets := Some ["A"; "B"; "C"] |}].

Definition parallel : @TechTreeData SafeInteger string RawEdge :=
  document [cited "A"; cited "B"] [single "A" "B"; single "A" "B"].

(** Node [B] cites nothing. *)
Definition uncited : @TechTreeData SafeInteger string RawEdge :=
  document [cited "A"; node "B" (Some [])] [single "A" "B"].

(** Edge [A -> Z] dangles and node [C] is isolated. *)
Definition untidy : @TechTreeData SafeInteger string RawEdge :=
  document [cited "A"; cited "C"] [single "A" "Z"].

Definition env (techTree : @TechTreeData SafeInteger string RawEdge) : Env :=
  {| JSON_FILE_PATH := "/data/fossil_fuel_tt_v2.json";
     sourceFile := FileParsed techTree;
     MONGODB_URI := Some "mongodb://localhost:27017";
     mongoUp := true |}.

(** A store that already holds one document of each kind. *)
Definition world : @World SafeInteger string :=
  {| db := {| nodesCollection := [cited "old"];
              edgesCollection := [mkEdge "old" "older"] |};
     calls := []; console := []; exitCode := None |}.

Import View.

Definition uiNode (i : string) (c : option string) : UiNode.t :=
  {| UiNode.id := i; UiNode.data := {| label := i; category := c |} |}.

Definition uiEdge (s t : string) : Edge.t :=
  {| Edge.id := edgeId s t; Edge.source := s; Edge.target := t |}.

(** Nodes [A] and [B] in [cat1], [C] in [cat2], and the edge [A -> C]. *)
Definition twoCategories : TechTree :=
  {| tt_nodes := [uiNode "A" (Some "cat1"); uiNode "B" (Some "cat1");
                  uiNode "C" (Some "cat2")];
     tt_edges := [uiEdge "A" "C"] |}.

(** Edges [X -> Y] and [Z -> X], and one that does not touch [X]. *)
Definition aroundX : list Edge.t :=
  [uiEdge "X" "Y"; uiEdge "Z" "X"; uiEdge "Y" "W"].

(** Two solar technologies and the edge between them, laid out and
    rendered, with nothing selected. *)
Definition rendered : State :=
  {| isLoading := false;
     nodes := [uiNode "solar_pv" (Some "Solar");
               uiNode "solar_thermal" (Some "Solar")];
     edges := [uiEdge "solar_thermal" "solar_pv"];
     selectedNode := None;
     highlightedElements := noHighlight;
     groupingMode := ModeNone;
     showingRelatedNodes := None; showOnlyConnected := false;
     searchInput := ""; searchTerm := "";
     isEditing := false; isPanelExpanded := true;
     showLegend := false; showOptions := false;
     selectedCategory := "All" |}.

(** The user has typed ["solar"] in the search box and the effect has
    run; both labels match the term. *)
Definition searching : State :=
  syncSearchTerm (handleSearchChange "solar" rendered).

End Samples.

(** ** Further parts of the seed scripts *)

Module Reseed.
Import Seed.

(** The cast [normalizedEdges as unknown as RawEdge[]] at the end of
    [normalizeTechTreeEdges]: a normalised edge read as a raw record has
    the keys [id], [source] and [target], and no [targets]. *)
Definition asRawEdge (e : NormalizedEdge) : RawEdge :=
  {| raw_source := Some (edge_source e);
     raw_target := Some (edge_target e);
     raw_targets := None |}.

(** A key the script reports: it starts with [trl_projected] and is not
    the one projected field the script knows. *)
Definition strayProjection (k : string) : bool :=
  String.prefix "trl_projected" k
  && negb (String.eqb k "trl_projected_5_10_years").

Section Documents.

Context {number unknown : Type}.

(** A parsed document on which both fatal checks of [main] pass: the
    emitted edges are as many as expected and every node cites something. *)
Definition sound (techTree : @TechTreeData number unknown RawEdge) : Prop :=
  length (normalizedEdgesOf (edges (graph techTree)))
  = expectedCountOf (edges (graph techTree)) ∧
  ∀ n, n ∈ nodes (graph techTree) → ∃ r refs, references n = Some (r :: refs).

End Documents.

End Reseed.

(** ** From a Python literal to JSON

    [pythonDictToJson] of the nuclear script: six global replacements, one
    after the other. A string is a sequence of code units; the patterns
    only name ASCII characters. *)

Module PythonDict.

Definition quote : ascii := ascii_of_nat 39.          (* the Python quote *)
Definition doubleQuote : ascii := ascii_of_nat 34.    (* the JSON quote *)
Definition backslash : ascii := ascii_of_nat 92.
Definition NUL : ascii := ascii_of_nat 0.

(** The text that stands for an escaped quote between the first and the
    third replacement: NUL, [SQUOTE], NUL. *)
Definition marker : string := String NUL ("SQUOTE" +:+ String NUL "").

Definition escapedQuote : string := String backslash (String quote "").
Definition escapedDoubleQuote : string :=
  String backslash (String doubleQuote "").

(** [s.replace(/pattern/g, replacement)] for a pattern that is a fixed,
    non-empty text: matches are taken from left to right and do not
    overlap. [skip] counts the characters of the current match that are
    still to be passed over. *)
Fixpoint replaceAllFrom (pattern replacement : string) (skip : nat)
    (s : string) : string :=
  match s with
  | EmptyString => ""
  | String c rest =>
      match skip with
      | S skip' => replaceAllFrom pattern replacement skip' rest
      | 0 =>
          if String.prefix pattern s
          then replacement
               +:+ replaceAllFrom pattern replacement
                     (String.length pattern - 1) rest
          else String c (replaceAllFrom pattern replacement 0 rest)
      end
  end.

Definition replaceAll (pattern replacement s : string) : string :=
  replaceAllFrom pattern replacement 0 s.

(** The text before the first quote of [s], when [s] has a quote: what
    the pattern captures before the closing quote. *)
Fixpoint upToQuote (s : string) : option string :=
  match s with
  | EmptyString => None
  | String c rest =>
      if bool_decide (c = quote) then Some ""
      else String c <$> upToQuote rest
  end.

(** The callback of the second replacement. *)
Definition requoted (content : string) : string :=
  let escaped := replaceAll (String doubleQuote "") escapedDoubleQuote content in
  String doubleQuote escaped +:+ String doubleQuote "".

(** The second replacement: every match of a quote, any characters but
    quotes, and a quote goes through the callback. A quote starts a match
    when another quote follows it, however far. *)
Fixpoint requoteFrom (skip : nat) (s : string) : string :=
  match s with
  | EmptyString => ""
  | String c rest =>
      match skip with
      | S skip' => requoteFrom skip' rest
      | 0 =>
          if bool_decide (c = quote) then
            match upToQuote rest with
            | Some content =>
                requoted content
                +:+ requoteFrom (S (String.length content)) rest
            | None => String c (requoteFrom 0 rest)
            end
          else String c (requoteFrom 0 rest)
      end
  end.

Definition requote (s : string) : string := requoteFrom 0 s.

(** [\w]: a letter, a digit or the underscore. *)
Definition isWordChar (c : ascii) : bool :=
  let n := N_of_ascii c in
  (((48 <=? n) && (n <=? 57)) || ((65 <=? n) && (n <=? 90))
   || ((97 <=? n) && (n <=? 122)) || (n =? 95))%N.

Fixpoint dropChars (n : nat) (s : string) : string :=
  match n, s with
  | 0, _ => s
  | S n', String _ rest => dropChars n' rest
  | S _, EmptyString => ""
  end.

Definition startsWithWordChar (s : string) : bool :=
  match s with
  | String c _ => isWordChar c
  | EmptyString => false
  end.

(** [s.replace(/\bword\b/g, replacement)] for a word that starts and
    ends with a word character: a match needs a character that is not a
    word character, or an end of the text, on both sides.
    [previousIsWord] tells whether the character before the current
    position is a word character. *)
Fixpoint replaceWordFrom (word replacement : string) (previousIsWord : bool)
    (skip : nat) (s : string) : string :=
  match s with
  | EmptyString => ""
  | String c rest =>
      match skip with
      | S skip' =>
          replaceWordFrom word replacement (isWordChar c) skip' rest
      | 0 =>
          if negb previousIsWord && String.prefix word s
             && negb (startsWithWordChar (dropChars (String.length word) s))
          then replacement
               +:+ replaceWordFrom word replacement (isWordChar c)
                     (String.length word - 1) rest
          else String c (replaceWordFrom word replacement (isWordChar c) 0 rest)
      end
  end.

Definition replaceWord (word replacement s : string) : string :=
  replaceWordFrom word replacement false 0 s.

Definition pythonDictToJson (raw : string) : string :=
  replaceWord "None" "null"
    (replaceWord "False" "false"
       (replaceWord "True" "true"
          (replaceAll marker (String quote "")
             (requote (replaceAll escapedQuote marker raw))))).

(** The text [s] has no character [c0]. *)
Definition without (c0 : ascii) (s : string) : bool :=
  Digits.allChars (λ c, negb (bool_decide (c = c0))) s.

(** Texts the replacements leave alone: no quote, no backslash, no NUL
    and none of the capitals that start [True], [False] and [None]. *)
Definition plainChar (c : ascii) : bool :=
  negb (bool_decide (c = quote)) && negb (bool_decide (c = backslash))
  && negb (bool_decide (c = NUL))
  && negb (bool_decide (c = "T"%char)) && negb (bool_decide (c = "F"%char))
  && negb (bool_decide (c = "N"%char)).

Definition plain (s : string) : bool := Digits.allChars plainChar s.

(** A plain text without the JSON quote either: the inside of a string
    that needs no escaping. *)
Definition plainContent (s : string) : bool :=
  Digits.allChars (λ c, plainChar c && negb (bool_decide (c = doubleQuote))) s.

End PythonDict.

(** ** The nuclear seed script

    [scripts/add-nuclear-tt.ts], the first script of [src/next.config.ts].
    Its helpers [toSingleTrl], [normalizeNodes] and the three checks are
    the same text as in the fossil-fuel script and are shared here; its
    document already has one-to-one edges with identifiers of their own,
    so there is no edge normalisation. *)

Module Nuclear.
Import Seed.

Definition DB_NAME : string := "nuclear_tt_db".

(** The message of an error: this script words the missing file
    differently. *)
Definition message (e : Exception) : string :=
  match e with
  | FileNotFound path => "File not found at path: " +:+ path
  | _ => Seed.message e
  end.

Section Script.

Context {number unknown : Type} `{!JsNumber number}.

(** The monad of [Seed.main], at the node type of this section. *)
Local Abbreviation Run := (@M number unknown).

(** What [main] finds at [JSON_FILE_PATH]: no file, a text that
    [JSON.parse] rejects after [pythonDictToJson], or a document. *)
Inductive SourceFile :=
  | FileMissing
  | FileUnparseable
  | FileParsed (techTree : @TechTreeData number unknown NormalizedEdge).

Record Env := {
  JSON_FILE_PATH : string;
  sourceFile : SourceFile;
  MONGODB_URI : option string;
  mongoUp : bool;
}.

Definition readSource (env : Env)
    : Run (@TechTreeData number unknown NormalizedEdge) :=
  match sourceFile env with
  | FileMissing => mthrow (FileNotFound (JSON_FILE_PATH env))
  | FileUnparseable =>
      @console_log number unknown ["Converting Python dict format to JSON..."];;
      mthrow MalformedSource
  | FileParsed techTree =>
      @console_log number unknown ["Converting Python dict format to JSON..."];;
      mret techTree
  end.

Definition connect (env : Env) (uri : string) : Run unit :=
  d ← getDb;
  driver (Connect uri) () d;;
  if mongoUp env then driver Ping () d else mthrow MongoUnreachable.

Definition seed (env : Env) (uri : string)
    (finalNodes : list (@RawNode number unknown))
    (finalEdges : list NormalizedEdge) : Run unit :=
  connect env uri;;
  console_log ["   Connected to MongoDB successfully."];;
  console_log [nl +:+ "Clearing existing data in " +:+ dq +:+ DB_NAME
               +:+ dq +:+ "..."];;
  deletedNodes ← deleteManyNodes;
  deletedEdges ← deleteManyEdges;
  console_log ["   Removed " +:+ pretty deletedNodes +:+ " node(s) and "
               +:+ pretty deletedEdges +:+ " edge(s)."];;
  console_log [nl +:+ "Inserting normalized data..."];;
  (if 0 <? length finalNodes
   then insertedCount ← insertManyNodes finalNodes;
        console_log ["   Inserted " +:+ pretty insertedCount
                     +:+ " document(s) into " +:+ dq +:+ "nodes" +:+ dq +:+ "."]
   else console_warn ["   No nodes to insert."]);;
  (if 0 <? length finalEdges
   then insertedCount ← insertManyEdges finalEdges;
        console_log ["   Inserted " +:+ pretty insertedCount
                     +:+ " document(s) into " +:+ dq +:+ "edges" +:+ dq +:+ "."]
   else console_warn ["   No edges to insert."]);;
  console_log [nl +:+ "Successfully seeded " +:+ pretty (length finalNodes)
               +:+ " nodes and " +:+ pretty (length finalEdges)
               +:+ " edges into " +:+ dq +:+ DB_NAME +:+ dq +:+ "."].

Definition main (env : Env) : Run unit :=
  (* 1. Read raw file from disk; 2. Convert Python dict syntax to JSON *)
  console_log [nl +:+ "Reading data from: " +:+ JSON_FILE_PATH env];;
  techTree ← readSource env;
  console_log ["   Loaded " +:+ pretty (length (nodes (graph techTree)))
               +:+ " nodes and " +:+ pretty (length (edges (graph techTree)))
               +:+ " edges."];;
  (* 3. Normalise TRL fields on nodes *)
  console_log [nl +:+ "Normalizing node TRL fields..."];;
  normalizedNodes ← normalizeNodes (nodes (graph techTree));
  let finalNodes := normalizedNodes in
  let finalEdges := edges (graph techTree) in
  (* 4. Run sanity checks *)
  console_log [nl +:+ "Running sanity checks..."];;
  runEdgeSanityCheck (length finalEdges) (length finalEdges);;
  runReferenceSanityCheck finalNodes;;
  runIdConsistencyCheck finalNodes finalEdges;;
  (* 5. Connect to MongoDB and seed *)
  if falsy (MONGODB_URI env) then mthrow MongoUriNotSet
  else
    let mongoUri := default "" (MONGODB_URI env) in
    console_log ["Connecting to MongoDB..."];;
    tryCatchFinally
      (seed env mongoUri finalNodes finalEdges)
      (λ err,
         console_error [nl +:+ "An error occurred during the seeding process:";
                        message err];;
         setExitCode 1)
      (close;; console_log ["MongoDB connection closed."]).

End Script.

End Nuclear.

(** ** The rest of the [TechTree] component *)

Module Machine.
Import View.

(** [uniqueCategories]: the sentinel and every non-empty category of a
    node, collected in a [Set] and sorted. [Array.prototype.sort] without
    a comparator orders strings by their code units; a list without
    duplicates has one sorted arrangement, so the sorting algorithm does
    not matter. [None] is the tree that has not been fetched yet. *)
Definition uniqueCategories (techTree : option TechTree) : list string :=
  match techTree with
  | None => []
  | Some techTree =>
      let categories :=
        foldl (λ categories node,
                 match category (UiNode.data node) with
                 | Some (String c rest) =>
                     Seed.setAdd categories (String c rest)
                 | Some EmptyString | None => categories
                 end)
              (Seed.setAdd [] "All") (tt_nodes techTree) in
      merge_sort String.le categories
  end.

Definition setIsEditing (v : bool) (s : State) : State :=
  {| isLoading := isLoading s; nodes := nodes s; edges := edges s;
     selectedNode := selectedNode s;
     highlightedElements := highlightedElements s;
     groupingMode := groupingMode s;
     showingRelatedNodes := showingRelatedNodes s;
     showOnlyConnected := showOnlyConnected s;
     searchInput := searchInput s; searchTerm := searchTerm s;
     isEditing := v; isPanelExpanded := isPanelExpanded s;
     showLegend := showLegend s; showOptions := showOptions s;
     selectedCategory := selectedCategory s |}.

Definition setShowLegend (v : bool) (s : State) : State :=
  {| isLoading := isLoading s; nodes := nodes s; edges := edges s;
     selectedNode := selectedNode s;
     highlightedElements := highlightedElements s;
     groupingMode := groupingMode s;
     showingRelatedNodes := showingRelatedNodes s;
     showOnlyConnected := showOnlyConnected s;
     searchInput := searchInput s; searchTerm := searchTerm s;
     isEditing := isEditing s; isPanelExpanded := isPanelExpanded s;
     showLegend := v; showOptions := showOptions s;
     selectedCategory := selectedCategory s |}.

Definition setShowOptions (v : bool) (s : State) : State :=
  {| isLoading := isLoading s; nodes := nodes s; edges := edges s;
     selectedNode := selectedNode s;
     highlightedElements := highlightedElements s;
     groupingMode := groupingMode s;
     showingRelatedNodes := showingRelatedNodes s;
     showOnlyConnected := showOnlyConnected s;
     searchInput := searchInput s; searchTerm := searchTerm s;
     isEditing := isEditing s; isPanelExpanded := isPanelExpanded s;
     showLegend := showLegend s; showOptions := v;
     selectedCategory := selectedCategory s |}.

Definition setIsLoading (v : bool) (s : State) : State :=
  {| isLoading := v; nodes := nodes s; edges := edges s;
     selectedNode := selectedNode s;
     highlightedElements := highlightedElements s;
     groupingMode := groupingMode s;
     showingRelatedNodes := showingRelatedNodes s;
     showOnlyConnected := showOnlyConnected s;
     searchInput := searchInput s; searchTerm := searchTerm s;
     isEditing := isEditing s; isPanelExpanded := isPanelExpanded s;
     showLegend := showLegend s; showOptions := showOptions s;
     selectedCategory := selectedCategory s |}.

Definition setNodes (v : list UiNode.t) (s : State) : State :=
  {| isLoading := isLoading s; nodes := v; edges := edges s;
     selectedNode := selectedNode s;
     highlightedElements := highlightedElements s;
     groupingMode := groupingMode s;
     showingRelatedNodes := showingRelatedNodes s;
     showOnlyConnected := showOnlyConnected s;
     searchInput := searchInput s; searchTerm := searchTerm s;
     isEditing := isEditing s; isPanelExpanded := isPanelExpanded s;
     showLegend := showLegend s; showOptions := showOptions s;
     selectedCategory := selectedCategory s |}.

Definition setEdges (v : list Edge.t) (s : State) : State :=
  {| isLoading := isLoading s; nodes := nodes s; edges := v;
     selectedNode := selectedNode s;
     highlightedElements := highlightedElements s;
     groupingMode := groupingMode s;
     showingRelatedNodes := showingRelatedNodes s;
     showOnlyConnected := showOnlyConnected s;
     searchInput := searchInput s; searchTerm := searchTerm s;
     isEditing := isEditing s; isPanelExpanded := isPanelExpanded s;
     showLegend := showLegend s; showOptions := showOptions s;
     selectedCategory := selectedCategory s |}.

(** [handleEnterEditMode]. [password] is what [prompt] returned ([None]
    when the dialog was cancelled) and [adminPassword] is
    [process.env.NEXT_PUBLIC_ADMIN_PASSWORD] ([None] when it is not set);
    [===] holds between two strings that are equal and never between
    [null] and [undefined]. The second component is the text given to
    [alert], if any. *)
Definition handleEnterEditMode (adminPassword password : option string)
    (s : State) : State * option string :=
  match password, adminPassword with
  | Some typed, Some expected =>
      if bool_decide (typed = expected) then (setIsEditing true s, None)
      else (s, Some "Incorrect password.")
  | Some _, None => (s, Some "Incorrect password.")
  | None, _ => (s, None)
  end.

(** [handleExitEditMode]; [confirmed] is the answer to
    [window.confirm]. *)
Definition handleExitEditMode (confirmed : bool) (s : State) : State :=
  if confirmed then setIsEditing false s else s.

(** What can happen to the component: the user's gestures, as wired in
    its JSX, and its effects. The layout itself is computed outside the
    component; [LayoutFinished] carries what it returned. *)
Inductive Action :=
  | ShowDetails (innerWidth : nat) (nodeId : string)
  | ShowConnected (nodeId : string)
  | GroupingModeChange (mode : GroupingMode)
  | Reset
  | SearchChange (value : string)
  | CategoryChange (value : string)
  | EnterEditMode (password : option string)
  | ExitEditMode (confirmed : bool)
  | ToggleLegend
  | ToggleOptions
  | TogglePanel
  | SearchEffect
  | LayoutStarted
  | LayoutFinished (layoutedNodes : list UiNode.t)
                   (layoutedEdges : list Edge.t).

Definition step (adminPassword : option string) (s : State) (a : Action)
    : State :=
  match a with
  | ShowDetails innerWidth nodeId => handleShowDetails innerWidth nodeId s
  | ShowConnected nodeId => handleShowConnected nodeId s
  | GroupingModeChange mode => handleGroupingModeChange mode s
  | Reset => handleReset s
  | SearchChange value => handleSearchChange value s
  | CategoryChange value => setSelectedCategory value s
  | EnterEditMode password => (handleEnterEditMode adminPassword password s).1
  | ExitEditMode confirmed => handleExitEditMode confirmed s
  | ToggleLegend => setShowLegend (negb (showLegend s)) s
  | ToggleOptions => setShowOptions (negb (showOptions s)) s
  | TogglePanel => setIsPanelExpanded (negb (isPanelExpanded s)) s
  | SearchEffect => syncSearchTerm s
  | LayoutStarted => setIsLoading true s
  | LayoutFinished layoutedNodes layoutedEdges =>
      s |> setNodes layoutedNodes |> setEdges layoutedEdges
        |> setIsLoading false
  end.

(** The state after a sequence of actions, from the initial state. *)
Definition run (adminPassword : option string) (actions : list Action)
    : State :=
  foldl (step adminPassword) initialState actions.

(** What the handlers keep true of the view: the connected-only flag
    is on exactly when there is an anchor; an anchor comes with a
    selection; connected-only comes with an empty search box and an empty
    search term; without a selection nothing is highlighted. *)
Definition coherent (s : State) : Prop :=
  (showOnlyConnected s = true ↔ is_Some (showingRelatedNodes s)) ∧
  (is_Some (showingRelatedNodes s) → is_Some (selectedNode s)) ∧
  (showOnlyConnected s = true → searchInput s = "" ∧ searchTerm s = "") ∧
  (selectedNode s = None → highlightedElements s = noHighlight).

End Machine.

(** ** More samples *)

Module MoreSamples.
Import Seed.

(** The surroundings of [Samples.env] with a server that does not
    answer. *)
Definition envDown (techTree : @TechTreeData SafeInteger string RawEdge)
    : @Env SafeInteger string :=
  {| JSON_FILE_PATH := "/data/fossil_fuel_tt_v2.json";
     sourceFile := FileParsed techTree;
     MONGODB_URI := Some "mongodb://localhost:27017";
     mongoUp := false |}.

(** A nuclear document whose edges carry identifiers of their own, one of
    them twice, and one edge without a source. *)
Definition nuclearDocument : @TechTreeData SafeInteger string NormalizedEdge :=
  {| graph :=
       {| nodes := [Samples.cited "A"; Samples.cited "B"];
          edges := [ {| edge_id := "e1"; edge_source := "A";
                        edge_target := "B" |};
                     {| edge_id := "e1"; edge_source := "A";
                        edge_target := "B" |};
                     {| edge_id := "e2"; edge_source := "";
                        edge_target := "B" |} ] |} |}.

Definition nuclearEnv : @Nuclear.Env SafeInteger string :=
  {| Nuclear.JSON_FILE_PATH := "/data/nuclear_tt_v2.json";
     Nuclear.sourceFile := Nuclear.FileParsed nuclearDocument;
     Nuclear.MONGODB_URI := Some "mongodb://localhost:27017";
     Nuclear.mongoUp := true |}.


End MoreSamples.

(** * Properties *)

(** ** Digit runs *)

Module DigitsFacts.
Import Digits.

Lemma append_String c s t : String c s +:+ t = String c (s +:+ t).
Proof. reflexivity. Qed.

Lemma append_empty s : "" +:+ s = s.
Proof. reflexivity. Qed.

Lemma noDigit_hasDigit s : hasDigit s = false ↔ noDigit s = true.
Proof. unfold hasDigit. destruct (noDigit s); naive_solver. Qed.

(** The digits taken from the front and what is left behind. *)
Lemma takeDigits_split s :
  ∃ post, s = takeDigits s +:+ post ∧
          allDigits (takeDigits s) = true ∧ stopsRun post = true.
Proof.
  unfold allDigits.
  induction s as [|c s (post & Hs & Hall & Hstop)]; simpl.
  - by exists "".
  - destruct (isDigit c) eqn:Hc.
    + exists post. simpl. rewrite Hc, Hall, append_String. by rewrite <-Hs.
    + exists (String c s). simpl. by rewrite Hc.
Qed.

Lemma matchDigits_None s : matchDigits s = None ↔ noDigit s = true.
Proof.
  unfold noDigit. induction s as [|c s IH]; cbn [matchDigits allChars]; [done|].
  destruct (isDigit c); cbn [negb andb]; [split; discriminate | exact IH].
Qed.

Lemma matchDigits_Some s run :
  matchDigits s = Some run → firstDigitRun s run.
Proof.
  revert run. induction s as [|c s IH]; intros run; simpl; [done|].
  destruct (isDigit c) eqn:Hc.
  - intros [= <-]. destruct (takeDigits_split s) as (post & Hs & Hall & Hstop).
    exists "", post. unfold allDigits in *. simpl.
    rewrite Hc, Hall, append_empty, append_String. by rewrite <-Hs.
  - intros (pre & post & -> & Hpre & Hne & Hall & Hstop)%IH.
    exists (String c pre), post. unfold noDigit in *. simpl.
    by rewrite Hc, append_String.
Qed.

Lemma takeDigits_run run post :
  allDigits run = true → stopsRun post = true →
  takeDigits (run +:+ post) = run.
Proof.
  unfold allDigits. intros Hall Hstop.
  induction run as [|d run IH].
  - rewrite append_empty. destruct post as [|p post]; [done|].
    cbn [takeDigits stopsRun] in *. by destruct (isDigit p).
  - cbn [allChars] in Hall. apply andb_prop in Hall as [Hd Hall].
    rewrite append_String. cbn [takeDigits]. rewrite Hd. f_equal. by apply IH.
Qed.

(** A text has at most one first maximal run of digits. *)
Lemma firstDigitRun_matchDigits text run :
  firstDigitRun text run → matchDigits text = Some run.
Proof.
  intros (pre & post & -> & Hpre & Hne & Hall & Hstop).
  unfold noDigit in Hpre. induction pre as [|c pre IH].
  - rewrite append_empty. destruct run as [|d run]; [done|].
    rewrite append_String. cbn [matchDigits].
    pose proof (takeDigits_run run post) as Hrun.
    unfold allDigits in *. cbn [allChars] in Hall.
    apply andb_prop in Hall as [Hd Hall]. rewrite Hd, Hrun; done.
  - cbn [allChars] in Hpre. apply andb_prop in Hpre as [Hc Hpre].
    rewrite append_String. cbn [matchDigits].
    destruct (isDigit c); [done|]. by apply IH.
Qed.

Lemma firstDigitRun_unique text run1 run2 :
  firstDigitRun text run1 → firstDigitRun text run2 → run1 = run2.
Proof.
  intros H1%firstDigitRun_matchDigits H2%firstDigitRun_matchDigits.
  congruence.
Qed.

End DigitsFacts.

(** ** Edge normalisation *)

Module EdgeFacts.
Import Seed.

Lemma foldl_countEdge n es :
  foldl countEdge n es = n + sum_list (List.map contribution es).
Proof.
  revert n. induction es as [|e es IH]; intros n; simpl; [lia|].
  rewrite IH. unfold contribution, countEdge.
  destruct (raw_target e), (raw_targets e); lia.
Qed.

Lemma expectedCountOf_sum es :
  expectedCountOf es = sum_list (List.map contribution es).
Proof. unfold expectedCountOf. by rewrite foldl_countEdge. Qed.

(** The edges one record emits. *)
Lemma pushEdges_app acc e :
  pushEdges acc e =
  acc ++ (if falsy (raw_source e) then []
          else List.map (mkEdge (default "" (raw_source e))) (listedTargets e)).
Proof.
  unfold pushEdges, listedTargets.
  destruct (falsy (raw_source e)); [by rewrite app_nil_r|].
  destruct (raw_target e) as [t|]; [done|].
  destruct (raw_targets e) as [ts|]; [|by rewrite app_nil_r].
  generalize (default "" (raw_source e)). intros src.
  revert acc. induction ts as [|t ts IH]; intros acc; simpl.
  - by rewrite app_nil_r.
  - rewrite IH. by rewrite <-app_assoc.
Qed.

Lemma foldl_pushEdges acc es :
  foldl pushEdges acc es =
  acc ++ flat_map (λ e,
    if falsy (raw_source e) then []
    else List.map (mkEdge (default "" (raw_source e))) (listedTargets e)) es.
Proof.
  revert acc. induction es as [|e es IH]; intros acc; simpl.
  - by rewrite app_nil_r.
  - rewrite IH, pushEdges_app. by rewrite <-app_assoc.
Qed.

Lemma length_listedTargets e : length (listedTargets e) = contribution e.
Proof.
  unfold listedTargets, contribution, countEdge.
  by destruct (raw_target e), (raw_targets e).
Qed.

Lemma length_normalizedEdgesOf es :
  length (normalizedEdgesOf es) + skippedCount es = expectedCountOf es.
Proof.
  rewrite expectedCountOf_sum. unfold normalizedEdgesOf, skippedCount.
  rewrite foldl_pushEdges. simpl.
  induction es as [|e es IH]; simpl; [done|].
  rewrite length_app, <-length_listedTargets.
  destruct (falsy (raw_source e)); simpl.
  - lia.
  - rewrite length_map. lia.
Qed.

Lemma skippedCount_0_iff es :
  skippedCount es = 0 ↔
  Forall (λ e, falsy (raw_source e) = true → listedTargets e = []) es.
Proof.
  unfold skippedCount. induction es as [|e es IH]; simpl.
  - split; [constructor|done].
  - rewrite Forall_cons, <-IH. destruct (falsy (raw_source e)); simpl.
    + rewrite Nat.eq_add_0, length_zero_iff_nil. tauto.
    + split; [by intros ?; split|by intros [_ ?]].
Qed.

Lemma skippedCount_0 es :
  Forall (λ e, falsy (raw_source e) = false) es → skippedCount es = 0.
Proof.
  unfold skippedCount. induction 1 as [|e es He _ IH]; simpl; [done|].
  by rewrite He.
Qed.

Lemma endpoints_normalizedEdgesOf es :
  List.map endpoints (normalizedEdgesOf es) = listedPairs es.
Proof.
  unfold normalizedEdgesOf, listedPairs. rewrite foldl_pushEdges. simpl.
  induction es as [|e es IH]; simpl; [done|].
  rewrite map_app, IH. f_equal.
  destruct (falsy (raw_source e)); [done|].
  rewrite map_map. by apply map_ext.
Qed.

Lemma edge_id_normalizedEdgesOf es e :
  e ∈ normalizedEdgesOf es → e = mkEdge (edge_source e) (edge_target e).
Proof.
  unfold normalizedEdgesOf. rewrite foldl_pushEdges. simpl.
  rewrite list_elem_of_In, in_flat_map. intros (r & _ & Hin).
  destruct (falsy (raw_source r)); [done|].
  apply in_map_iff in Hin as (t & <- & _). done.
Qed.

Lemma includes_tail sub c s :
  includes sub (String c s) = false → includes sub s = false.
Proof. cbn [includes]. by intros [_ ?]%orb_false_elim. Qed.

(** A text that starts with the separator of [edgeId] right after a
    source free of ["_tgt"] starts with that source. *)
Lemma separator_first t1 s2 t2 :
  includes "_tgt" s2 = false →
  "_tgt_" +:+ t1 = s2 +:+ "_tgt_" +:+ t2 → s2 = "".
Proof.
  intros Hs2 Heq.
  destruct s2 as [|c1 [|c2 [|c3 [|c4 s2]]]]; [done|..];
    rewrite ?DigitsFacts.append_String, ?DigitsFacts.append_empty in Heq;
    simplify_eq.
  cbn in Hs2. by destruct s2.
Qed.

Lemma edgeId_inj s1 t1 s2 t2 :
  includes "_tgt" s1 = false → includes "_tgt" s2 = false →
  edgeId s1 t1 = edgeId s2 t2 → s1 = s2 ∧ t1 = t2.
Proof.
  unfold edgeId. intros Hs1 Hs2 Heq. apply (inj (String.app _)) in Heq.
  revert s2 Hs1 Hs2 Heq. induction s1 as [|c s1 IH]; intros s2 Hs1 Hs2 Heq.
  - rewrite DigitsFacts.append_empty in Heq.
    pose proof (separator_first _ _ _ Hs2 Heq) as ->.
    rewrite DigitsFacts.append_empty in Heq.
    by apply (inj (String.app _)) in Heq.
  - destruct s2 as [|d s2].
    + symmetry in Heq. rewrite DigitsFacts.append_empty in Heq.
      by pose proof (separator_first _ _ _ Hs1 Heq).
    + rewrite !DigitsFacts.append_String in Heq. simplify_eq.
      apply includes_tail in Hs1, Hs2.
      destruct (IH s2 Hs1 Hs2) as [-> ->]; done.
Qed.

Lemma NoDup_edge_ids (out : list NormalizedEdge) :
  (∀ e, e ∈ out → e = mkEdge (edge_source e) (edge_target e)) →
  Forall (λ e, includes "_tgt" (edge_source e) = false) out →
  NoDup (List.map endpoints out) → NoDup (List.map edge_id out).
Proof.
  induction out as [|e out IH]; intros Hmk Hsrc Hnd; simpl; [constructor|].
  apply Forall_cons in Hsrc as [He Hsrc]. simpl in Hnd.
  apply NoDup_cons in Hnd as [Hnotin Hnd]. apply NoDup_cons. split.
  - intros Hin. apply Hnotin.
    apply list_elem_of_In, in_map_iff in Hin as (e' & Hid & Hin').
    apply list_elem_of_In, in_map_iff. exists e'. split; [|done].
    apply list_elem_of_In in Hin'.
    rewrite (Hmk e), (Hmk e') in Hid by set_solver. simpl in Hid.
    rewrite Forall_forall in Hsrc.
    destruct (edgeId_inj _ _ _ _ (Hsrc _ Hin') He Hid) as [Hs Ht].
    unfold endpoints. by rewrite Hs, Ht.
  - apply IH; [|done..]. intros e' Hin'. apply Hmk. set_solver.
Qed.

Section Claims.

Context {number unknown : Type}.
Implicit Types treeData : @TechTreeData number unknown RawEdge.

(** C1, as amended. The expected count returned by
    [normalizeTechTreeEdges] is the number of edges emitted plus the
    number of targets listed by the records without a usable source (one
    for a record with a [target] key, the length of the array for a
    record with a [targets] array): such a record is skipped by the
    emitting loop but still counted by the counting loop. The two numbers
    are equal whenever every record has a non-empty source, and more
    precisely exactly when no record without a usable source lists a
    target. *)
Theorem expectedEdgeCount_emitted_plus_skipped treeData :
  let result := normalizeTechTreeEdges treeData in
  let emitted := edges (graph result.1) in
  result.2 = length emitted + skippedCount (edges (graph treeData)) ∧
  (Forall (λ edge, falsy (raw_source edge) = false) (edges (graph treeData)) →
   result.2 = length emitted) ∧
  (result.2 = length emitted ↔
   Forall (λ edge, falsy (raw_source edge) = true → listedTargets edge = [])
          (edges (graph treeData))).
Proof.
  simpl. split_and!.
  - by rewrite length_normalizedEdgesOf.
  - intros Hsrc. rewrite <-length_normalizedEdgesOf, skippedCount_0; [lia|done].
  - rewrite <-skippedCount_0_iff, <-length_normalizedEdgesOf. lia.
Qed.

(** C5, as amended. Edge normalisation does not remove parallel edges:
    it emits one edge for every target listed by a record with a
    non-empty source, in input order, so a pair listed twice is emitted
    twice. The identifier of every emitted edge is
    [edge_src_{source}_tgt_{target}], a function of its pair. The emitted
    edges are therefore free of repeated pairs exactly when the records
    list no pair twice, and then their identifiers are pairwise distinct
    too, provided no source contains the text [_tgt]. *)
Theorem normalizedEdges_keep_listed_pairs treeData :
  let listed := listedPairs (edges (graph treeData)) in
  let emitted := edges (graph (normalizeTechTreeEdges treeData).1) in
  List.map endpoints emitted = listed ∧
  (∀ e, e ∈ emitted → edge_id e = edgeId (edge_source e) (edge_target e)) ∧
  (NoDup (List.map endpoints emitted) ↔ NoDup listed) ∧
  (NoDup listed →
   Forall (λ e, includes "_tgt" (edge_source e) = false) emitted →
   NoDup (List.map edge_id emitted)).
Proof.
  simpl. rewrite endpoints_normalizedEdgesOf. split_and!; [done| |done|].
  - intros e He. by rewrite (edge_id_normalizedEdgesOf _ _ He) at 1.
  - intros Hnd Hsrc. apply NoDup_edge_ids; [|done|].
    + apply edge_id_normalizedEdgesOf.
    + by rewrite endpoints_normalizedEdgesOf.
Qed.

End Claims.

(** A document whose records all have a source: three single-target
    records and one with three targets give six edges, as counted. In
    the document that lost a source and in the one that lost the source
    of a record with three targets, the count is ahead of the emitted
    edges by one and by three. *)
Lemma expectedEdgeCount_fanOut :
  Forall (λ edge, falsy (raw_source edge) = false)
         (edges (graph Samples.fanOut)) ∧
  (normalizeTechTreeEdges Samples.fanOut).2 = 6 ∧
  (normalizeTechTreeEdges Samples.fanOut).2
  = length (edges (graph (normalizeTechTreeEdges Samples.fanOut).1)) ∧
  skippedCount (edges (graph Samples.lostSource)) = 1 ∧
  (normalizeTechTreeEdges Samples.lostSource).2
  = length (edges (graph (normalizeTechTreeEdges Samples.lostSource).1))
    + 1 ∧
  skippedCount (edges (graph Samples.lostFanOut)) = 3 ∧
  (normalizeTechTreeEdges Samples.lostFanOut).2
  = length (edges (graph (normalizeTechTreeEdges Samples.lostFanOut).1))
    + 3.
Proof.
  assert (Hsrc : Forall (λ edge, falsy (raw_source edge) = false)
                        (edges (graph Samples.fanOut)))
    by (repeat constructor).
  split_and!; [exact Hsrc | reflexivity | | reflexivity | | reflexivity |].
  - exact (proj1 (proj2 (expectedEdgeCount_emitted_plus_skipped
                           Samples.fanOut)) Hsrc).
  - exact (proj1 (expectedEdgeCount_emitted_plus_skipped Samples.lostSource)).
  - exact (proj1 (expectedEdgeCount_emitted_plus_skipped Samples.lostFanOut)).
Defined.

(** C1 fails as stated: a record without a source is counted and not
    emitted. *)
Lemma expectedEdgeCount_lostSource :
  (normalizeTechTreeEdges Samples.lostSource).2 = 2 ∧
  length (edges (graph (normalizeTechTreeEdges Samples.lostSource).1)) = 1 ∧
  (normalizeTechTreeEdges Samples.lostSource).2
  ≠ length (edges (graph (normalizeTechTreeEdges Samples.lostSource).1)).
Proof. split_and!; [reflexivity | reflexivity | discriminate]. Qed.

(** The fan-out document lists no pair twice and no source contains
    [_tgt]: its edges have distinct pairs and distinct identifiers. *)
Lemma normalizedEdges_fanOut_distinct :
  NoDup (listedPairs (edges (graph Samples.fanOut))) ∧
  NoDup (List.map edge_id
           (edges (graph (normalizeTechTreeEdges Samples.fanOut).1))).
Proof.
  assert (Hnd : NoDup (listedPairs (edges (graph Samples.fanOut))))
    by (refine (bool_decide_unpack _ _); vm_compute; exact I).
  split; [exact Hnd|].
  apply (proj2 (proj2 (proj2
           (normalizedEdges_keep_listed_pairs Samples.fanOut))) Hnd).
  repeat constructor.
Defined.

(** C5 fails as stated: the same pair listed by two records gives two
    edges with the same pair and the same identifier. *)
Lemma normalizedEdges_parallel_kept :
  edges (graph (normalizeTechTreeEdges Samples.parallel).1)
  = [mkEdge "A" "B"; mkEdge "A" "B"] ∧
  ¬ NoDup (List.map edge_id
             (edges (graph (normalizeTechTreeEdges Samples.parallel).1))) ∧
  ¬ NoDup (List.map endpoints
             (edges (graph (normalizeTechTreeEdges Samples.parallel).1))).
Proof.
  split_and!; [reflexivity|..];
    intros [Hnotin _]%NoDup_cons; apply Hnotin; by left.
Qed.

End EdgeFacts.

(** ** Scalar normalisation of nodes *)

Module NodeFacts.
Import Seed Digits.

Lemma lookup_map {A B} (f : A → B) (l : list A) (i : nat) :
  List.map f l !! i = f <$> l !! i.
Proof. revert i. induction l as [|x l IH]; intros [|i]; simpl; auto. Qed.

Section Claims.

Context {number unknown : Type} `{!JsNumber number}.
Implicit Types (value projected : TrlValue number).
Implicit Types (node updated : @RawNode number unknown).
Implicit Types (w : @World number unknown).

(** C2. [toSingleTrl] returns the default for [null] and [undefined];
    for any other value it looks at the textual form [String(value)]: if
    that text has a digit, the result is its first maximal run of digits,
    and if it has none, the result is the default. Callers pass ["1"] as
    the default, or leave it out and get ["1"]. *)
Theorem toSingleTrl_first_digit_run value (defaultValue : string) :
  (value = TrlNull ∨ value = TrlUndefined →
   toSingleTrl value defaultValue = defaultValue) ∧
  (∀ text, textualForm value = Some text →
     (hasDigit text = true →
      firstDigitRun text (toSingleTrl value defaultValue)) ∧
     (hasDigit text = false →
      toSingleTrl value defaultValue = defaultValue)).
Proof.
  split.
  - by intros [-> | ->].
  - intros text Htext. unfold toSingleTrl. rewrite Htext.
    destruct (matchDigits text) as [run|] eqn:Hrun; split.
    + intros _. by apply DigitsFacts.matchDigits_Some.
    + intros Hno%DigitsFacts.noDigit_hasDigit.
      apply DigitsFacts.matchDigits_None in Hno. congruence.
    + apply DigitsFacts.matchDigits_None in Hrun.
      unfold hasDigit. by rewrite Hrun.
    + done.
Qed.

Lemma normalizeNode_frame node :
  let updated := normalizeNode node in
  node_id updated = node_id node ∧ node_label updated = node_label node ∧
  node_type updated = node_type node ∧
  node_category updated = node_category node ∧
  description updated = description node ∧
  references updated = references node ∧ extra updated = extra node.
Proof. unfold normalizeNode. by destruct (trl_projected_5_10_years node). Qed.

Lemma normalizeNode_current node :
  trl_current (normalizeNode node)
  = Some (TrlString (toSingleTrl (prop (trl_current node)) "1")).
Proof. unfold normalizeNode. by destruct (trl_projected_5_10_years node). Qed.

Lemma normalizeNode_projected node :
  trl_projected_5_10_years (normalizeNode node)
  = (λ projected, TrlString (toSingleTrl projected "1"))
      <$> trl_projected_5_10_years node.
Proof. unfold normalizeNode. by destruct (trl_projected_5_10_years node). Qed.

Lemma normalizeNodes_run (nodes : list RawNode) w :
  ∃ entry, normalizeNodes nodes w
           = (Ok (List.map normalizeNode nodes), logged [entry] w).
Proof.
  unfold normalizeNodes.
  destruct (0 <? length _); eexists; reflexivity.
Qed.

(** C4. [normalizeNodes] returns one normalised node per input node, in
    order, and touches neither the store nor the driver. In every
    normalised node [trl_current] is set, to the normalised value of the
    raw field (read as [undefined] when the key is absent). The key
    [trl_projected_5_10_years] is present in the normalised node exactly
    when it was present in the raw node, and then holds the normalised
    value; a node without it stays without it. No other field changes. *)
Theorem normalizeNodes_trl_fields (nodes : list RawNode) w :
  ∃ normalized w',
    normalizeNodes nodes w = (Ok normalized, w') ∧
    db w' = db w ∧ calls w' = calls w ∧
    length normalized = length nodes ∧
    ∀ i node, nodes !! i = Some node →
      ∃ updated, normalized !! i = Some updated ∧
        trl_current updated
        = Some (TrlString (toSingleTrl (prop (trl_current node)) "1")) ∧
        (trl_projected_5_10_years node = None →
         trl_projected_5_10_years updated = None) ∧
        (∀ projected, trl_projected_5_10_years node = Some projected →
           trl_projected_5_10_years updated
           = Some (TrlString (toSingleTrl projected "1"))) ∧
        node_id updated = node_id node ∧
        node_category updated = node_category node ∧
        references updated = references node ∧
        extra updated = extra node.
Proof.
  destruct (normalizeNodes_run nodes w) as [entry Hrun].
  exists (List.map normalizeNode nodes), (logged [entry] w).
  split_and!; [done..|by rewrite length_map|].
  intros i node Hi. exists (normalizeNode node).
  rewrite lookup_map, Hi, normalizeNode_current, normalizeNode_projected.
  destruct (normalizeNode_frame node) as (? & ? & ? & ? & ? & ? & ?).
  split_and!; try done.
  - by intros ->.
  - by intros projected ->.
Qed.

End Claims.

(** The three cases of C2 on the examples of the script's comment. *)
Lemma toSingleTrl_examples :
  toSingleTrl (TrlNull : TrlValue SafeInteger) "1" = "1" ∧
  firstDigitRun "7-9 (LWRs); 4-6"
    (toSingleTrl (TrlString "7-9 (LWRs); 4-6" : TrlValue SafeInteger)
       "1") ∧
  toSingleTrl (TrlString "7-9 (LWRs); 4-6" : TrlValue SafeInteger) "1"
  = "7" ∧
  toSingleTrl (TrlNumber {| integer := 56; integer_safe := I |}) "1" = "56" ∧
  toSingleTrl (TrlString "" : TrlValue SafeInteger) "1" = "1".
Proof.
  split_and!.
  - apply (proj1 (toSingleTrl_first_digit_run TrlNull "1")). by left.
  - by apply (proj2 (toSingleTrl_first_digit_run
                       (TrlString "7-9 (LWRs); 4-6") "1") _ eq_refl).
  - reflexivity.
  - reflexivity.
  - by apply (proj2 (toSingleTrl_first_digit_run (TrlString "") "1") _ eq_refl).
Defined.

(** C4 on two nodes: [A] has no projected field and keeps none, [B] has
    one and keeps it, normalised. *)
Lemma normalizeNodes_on_samples :
  ∃ normalized w',
    normalizeNodes [Samples.cited "A"; Samples.rated "B"] Samples.world
    = (Ok normalized, w') ∧
    (∃ a, normalized !! 0 = Some a ∧
          trl_current a = Some (TrlString "7") ∧
          trl_projected_5_10_years a = None) ∧
    (∃ b, normalized !! 1 = Some b ∧
          trl_current b = Some (TrlString "4") ∧
          trl_projected_5_10_years b = Some (TrlString "5")).
Proof.
  destruct (normalizeNodes_trl_fields
              [Samples.cited "A"; Samples.rated "B"] Samples.world)
    as (normalized & w' & Hrun & _ & _ & _ & Hnodes).
  exists normalized, w'. split_and!; [exact Hrun| |].
  - destruct (Hnodes 0 (Samples.cited "A") eq_refl)
      as (a & Ha & Hcurrent & Habsent & _).
    exists a. split_and!; [exact Ha | exact Hcurrent |].
    apply Habsent. reflexivity.
  - destruct (Hnodes 1 (Samples.rated "B") eq_refl)
      as (b & Hb & Hcurrent & _ & Hpresent & _).
    exists b. split_and!; [exact Hb | exact Hcurrent |].
    exact (Hpresent _ eq_refl).
Defined.

End NodeFacts.

(** ** The run of [main] *)

Module MainFacts.
Import Seed.

Section Run.

Context {number unknown : Type} `{!JsNumber number}.
Implicit Types (w : @World number unknown) (env : @Env number unknown).
Implicit Types (n : @RawNode number unknown).
Implicit Types (ns finalNodes : list (@RawNode number unknown)).

Lemma bind_Ok {A B} (m : M A) (k : A → M B) w a w' :
  m w = (Ok a, w') → (m ≫= k) w = k a w'.
Proof. unfold mbind, M_bind. by intros ->. Qed.

Lemma bind_Thrown {A B} (m : M A) (k : A → M B) w e w' :
  m w = (Thrown e, w') → (m ≫= k) w = (Thrown e, w').
Proof. unfold mbind, M_bind. by intros ->. Qed.

Lemma logged_logged es1 es2 w : logged es2 (logged es1 w) = logged (es1 ++ es2) w.
Proof. unfold logged. cbn [db calls console exitCode]. by rewrite app_assoc. Qed.

Lemma lacksReferences_normalizeNode n :
  lacksReferences (normalizeNode n) = lacksReferences n.
Proof.
  unfold lacksReferences.
  by destruct (NodeFacts.normalizeNode_frame n) as (_&_&_&_&_& -> &_).
Qed.

Lemma missing_normalizeNode ns :
  List.map node_id (List.filter lacksReferences (List.map normalizeNode ns))
  = List.map node_id (List.filter lacksReferences ns).
Proof.
  induction ns as [|n ns IH]; simpl; [done|].
  rewrite lacksReferences_normalizeNode.
  destruct (lacksReferences n); simpl; rewrite IH; [|done].
  by destruct (NodeFacts.normalizeNode_frame n) as (-> & _).
Qed.

Lemma seed_run env uri finalNodes finalEdges w :
  mongoUp env = true →
  ∃ w' entries,
    seed env uri finalNodes finalEdges w = (Ok (), w') ∧
    db w' = {| nodesCollection := finalNodes;
               edgesCollection := finalEdges |} ∧
    calls w' = calls w
      ++ [Connect uri; Ping; DeleteManyNodes; DeleteManyEdges]
      ++ (if 0 <? length finalNodes then [InsertManyNodes finalNodes] else [])
      ++ (if 0 <? length finalEdges then [InsertManyEdges finalEdges] else []) ∧
    console w' = console w ++ entries ∧
    exitCode w' = exitCode w.
Proof.
  intros Hup. unfold seed.
  erewrite bind_Ok by (unfold connect; rewrite Hup; reflexivity).
  do 2 erewrite bind_Ok by reflexivity.
  do 4 erewrite bind_Ok by reflexivity.
  destruct finalNodes as [|n0 ns]; destruct finalEdges as [|e0 es];
    cbn [Nat.ltb Nat.leb length];
    repeat erewrite bind_Ok by reflexivity;
    (eexists _, _; split; [reflexivity|]);
    cbn [db calls console exitCode logged nodesCollection edgesCollection];
    rewrite <-?app_assoc; split_and!; reflexivity.
Qed.

(** [runIdConsistencyCheck] never throws; its findings are warnings. *)
Lemma runIdConsistencyCheck_run ns (es : list NormalizedEdge) w :
  ∃ entries,
    runIdConsistencyCheck ns es w = (Ok (), logged entries w) ∧
    (missingInNodes ns es ≠ [] →
     ConsoleWarn ["WARNING: IDs present in edges but NOT found in nodes:";
                  join ", " (missingInNodes ns es)] ∈ entries) ∧
    (isolatedNodes ns es ≠ [] →
     ConsoleWarn ["WARNING: Nodes not referenced by any edge (isolated):";
                  join ", " (isolatedNodes ns es)] ∈ entries).
Proof.
  unfold runIdConsistencyCheck.
  destruct (missingInNodes ns es) as [|m ms];
    destruct (isolatedNodes ns es) as [|i iso];
    cbn [length Nat.eqb];
    repeat erewrite bind_Ok by reflexivity;
    unfold console_log, console_warn, print; rewrite !logged_logged;
    (eexists; split; [reflexivity|]);
    split; intros ?; first [done | set_solver].
Qed.

Lemma runReferenceSanityCheck_throws ns w :
  (∃ n, n ∈ ns ∧ (references n = None ∨ references n = Some [])) →
  runReferenceSanityCheck (List.map normalizeNode ns) w
  = (Thrown (ReferenceSanityCheckFailed
               (List.map node_id (List.filter lacksReferences ns))), w).
Proof.
  intros (n & Hin & Hrefs). unfold runReferenceSanityCheck.
  rewrite missing_normalizeNode.
  assert (node_id n ∈ List.map node_id (List.filter lacksReferences ns)) as Hn.
  { apply list_elem_of_In, in_map, filter_In. split; [by apply list_elem_of_In|].
    unfold lacksReferences. by destruct Hrefs as [-> | ->]. }
  destruct (List.map node_id _) as [|i ids]; [by apply elem_of_nil in Hn|done].
Qed.

Lemma runReferenceSanityCheck_passes ns w :
  (∀ n, n ∈ ns → ∃ r refs, references n = Some (r :: refs)) →
  runReferenceSanityCheck (List.map normalizeNode ns) w
  = (Ok (), logged [ConsoleLog
       ["Reference sanity check passed: all nodes have references."]] w).
Proof.
  intros Hrefs. unfold runReferenceSanityCheck. rewrite missing_normalizeNode.
  replace (List.filter lacksReferences ns) with (@nil (@RawNode number unknown));
    [done|].
  induction ns as [|n ns IH]; simpl; [done|].
  destruct (Hrefs n) as (r & refs & Hn); [set_solver|].
  unfold lacksReferences at 1. rewrite Hn. simpl. apply IH.
  intros n' Hin. apply Hrefs. set_solver.
Qed.

(** The steps of [main] up to the sanity checks. *)
Ltac run_prelude Hsrc :=
  unfold main;
  erewrite bind_Ok by reflexivity;
  erewrite bind_Ok by (unfold readSource; rewrite Hsrc; reflexivity);
  do 2 erewrite bind_Ok by reflexivity;
  match goal with
  | |- context [(normalizeNodes ?ns ≫= _) ?W] =>
      let entry := fresh "entry" in
      let Hrun := fresh "Hrun" in
      destruct (NodeFacts.normalizeNodes_run ns W) as [entry Hrun];
      erewrite bind_Ok by exact Hrun; clear Hrun
  end;
  erewrite bind_Ok by reflexivity;
  unfold normalizeTechTreeEdges; cbn [graph nodes edges];
  do 4 erewrite bind_Ok by reflexivity.

Lemma main_edge_count_mismatch env techTree w :
  sourceFile env = FileParsed techTree →
  length (normalizedEdgesOf (edges (graph techTree)))
  ≠ expectedCountOf (edges (graph techTree)) →
  ∃ w', main env w
        = (Thrown (EdgeSanityCheckFailed
                     (expectedCountOf (edges (graph techTree)))
                     (length (normalizedEdgesOf (edges (graph techTree))))),
           w') ∧
        db w' = db w ∧ calls w' = calls w ∧ exitCode w' = exitCode w.
Proof.
  intros Hsrc Hcount. run_prelude Hsrc.
  erewrite bind_Thrown
    by (unfold runEdgeSanityCheck; rewrite bool_decide_true by done;
        reflexivity).
  by eexists.
Qed.

Lemma main_missing_references env techTree w :
  sourceFile env = FileParsed techTree →
  length (normalizedEdgesOf (edges (graph techTree)))
  = expectedCountOf (edges (graph techTree)) →
  (∃ n, n ∈ nodes (graph techTree) ∧
        (references n = None ∨ references n = Some [])) →
  ∃ w', main env w
        = (Thrown (ReferenceSanityCheckFailed
                     (List.map node_id
                        (List.filter lacksReferences (nodes (graph techTree))))),
           w') ∧
        db w' = db w ∧ calls w' = calls w ∧ exitCode w' = exitCode w.
Proof.
  intros Hsrc Hcount Hrefs. run_prelude Hsrc.
  erewrite bind_Ok
    by (unfold runEdgeSanityCheck; rewrite bool_decide_false by (by intros ?);
        reflexivity).
  erewrite bind_Thrown by (by apply runReferenceSanityCheck_throws).
  by eexists.
Qed.

Lemma main_seeds env techTree w :
  sourceFile env = FileParsed techTree →
  length (normalizedEdgesOf (edges (graph techTree)))
  = expectedCountOf (edges (graph techTree)) →
  (∀ n, n ∈ nodes (graph techTree) → ∃ r refs, references n = Some (r :: refs)) →
  falsy (MONGODB_URI env) = false → mongoUp env = true →
  let finalNodes := List.map normalizeNode (nodes (graph techTree)) in
  let finalEdges := normalizedEdgesOf (edges (graph techTree)) in
  ∃ w' entries,
    main env w = (Ok (), w') ∧
    db w' = {| nodesCollection := finalNodes; edgesCollection := finalEdges |} ∧
    List.filter isWrite (calls w')
    = List.filter isWrite (calls w)
      ++ [DeleteManyNodes; DeleteManyEdges]
      ++ (if 0 <? length finalNodes then [InsertManyNodes finalNodes] else [])
      ++ (if 0 <? length finalEdges then [InsertManyEdges finalEdges] else []) ∧
    console w' = console w ++ entries ∧
    (missingInNodes finalNodes finalEdges ≠ [] →
     ConsoleWarn ["WARNING: IDs present in edges but NOT found in nodes:";
                  join ", " (missingInNodes finalNodes finalEdges)] ∈ entries) ∧
    (isolatedNodes finalNodes finalEdges ≠ [] →
     ConsoleWarn ["WARNING: Nodes not referenced by any edge (isolated):";
                  join ", " (isolatedNodes finalNodes finalEdges)] ∈ entries).
Proof.
  intros Hsrc Hcount Hrefs Huri Hup finalNodes finalEdges. run_prelude Hsrc.
  erewrite bind_Ok
    by (unfold runEdgeSanityCheck; rewrite bool_decide_false by (by intros ?);
        reflexivity).
  erewrite bind_Ok by (by apply runReferenceSanityCheck_passes).
  match goal with
  | |- context [(runIdConsistencyCheck ?a ?b ≫= _) ?W] =>
      destruct (runIdConsistencyCheck_run a b W)
        as (report & Hrun & Hmissing & Hisolated);
      erewrite bind_Ok by exact Hrun; clear Hrun
  end.
  rewrite Huri. erewrite bind_Ok by reflexivity.
  rewrite !logged_logged. unfold tryCatchFinally.
  match goal with
  | |- context [seed ?e ?u ?a ?b ?W] =>
      destruct (seed_run e u a b W Hup)
        as (w1 & seeded & -> & Hdb & Hcalls & Hconsole & Hexit)
  end.
  erewrite bind_Ok by reflexivity.
  unfold console_log, print.
  eexists _, _. split; [reflexivity|].
  cbn [db calls console exitCode logged] in *.
  rewrite Hdb, Hcalls, Hconsole, <-!app_assoc.
  split_and!; [done| |reflexivity|..].
  - subst finalNodes finalEdges. rewrite !List.filter_app.
    destruct (0 <? length (List.map _ _));
      destruct (0 <? length (normalizedEdgesOf _)); reflexivity.
  - intros Hne. apply Hmissing in Hne. rewrite !elem_of_app. tauto.
  - intros Hne. apply Hisolated in Hne. rewrite !elem_of_app. tauto.
Qed.

(** Whatever [main] throws, it throws before the first driver call. *)
Lemma main_throws_before_store env w e w' :
  main env w = (Thrown e, w') →
  db w' = db w ∧ calls w' = calls w ∧ exitCode w' = exitCode w.
Proof.
  destruct (sourceFile env) as [| |techTree] eqn:Hsrc.
  - unfold main. erewrite bind_Ok by reflexivity.
    erewrite bind_Thrown by (unfold readSource; rewrite Hsrc; reflexivity).
    by intros [= <- <-].
  - unfold main. erewrite bind_Ok by reflexivity.
    erewrite bind_Thrown by (unfold readSource; rewrite Hsrc; reflexivity).
    by intros [= <- <-].
  - run_prelude Hsrc. unfold runEdgeSanityCheck at 1.
    case_bool_decide as Hcount.
    { erewrite bind_Thrown by reflexivity. by intros [= <- <-]. }
    erewrite bind_Ok by reflexivity.
    unfold runReferenceSanityCheck at 1.
    destruct (0 <? length (List.map node_id _)).
    { erewrite bind_Thrown by reflexivity. by intros [= <- <-]. }
    erewrite bind_Ok by reflexivity.
    match goal with
    | |- context [(runIdConsistencyCheck ?a ?b ≫= _) ?W] =>
        destruct (runIdConsistencyCheck_run a b W) as (report & Hrun & _);
        erewrite bind_Ok by exact Hrun; clear Hrun
    end.
    destruct (falsy (MONGODB_URI env)); [by intros [= <- <-]|].
    erewrite bind_Ok by reflexivity. unfold tryCatchFinally.
    destruct (mongoUp env) eqn:Hup.
    + match goal with
      | |- context [seed ?e ?u ?a ?b ?W] =>
          destruct (seed_run e u a b W Hup) as (w1 & seeded & -> & _)
      end.
      erewrite bind_Ok by reflexivity. discriminate.
    + unfold seed.
      erewrite bind_Thrown by (unfold connect; rewrite Hup; reflexivity).
      cbv beta iota. erewrite bind_Ok by reflexivity.
      unfold setExitCode. cbv beta iota.
      erewrite bind_Ok by reflexivity. discriminate.
Qed.

(** C3. A run of [main] on a parsed document aborts when the emitted
    edge count differs from the expected count, and aborts when some node
    has a missing or empty reference list; it then throws the matching
    error, which names the counts or the offending node identifiers, and
    the store is as it was: no driver call has been made. More generally
    whatever [main] throws, it throws before the first driver call. When
    neither finding occurs, the connection string is set and the server
    answers, the run completes and the store holds exactly the normalised
    nodes and edges, whether or not some edge endpoint is no node or some
    node is isolated: those two findings only add a warning to the
    console. *)
Theorem main_fatal_findings_precede_writes env techTree w :
  sourceFile env = FileParsed techTree →
  let finalNodes := List.map normalizeNode (nodes (graph techTree)) in
  let finalEdges := normalizedEdgesOf (edges (graph techTree)) in
  let expectedEdgeCount := expectedCountOf (edges (graph techTree)) in
  let missing :=
    List.map node_id (List.filter lacksReferences (nodes (graph techTree))) in
  (length finalEdges ≠ expectedEdgeCount →
   ∃ w', main env w
         = (Thrown (EdgeSanityCheckFailed expectedEdgeCount (length finalEdges)),
            w') ∧
         db w' = db w ∧ calls w' = calls w) ∧
  ((∃ n, n ∈ nodes (graph techTree) ∧
         (references n = None ∨ references n = Some [])) →
   ∃ e w', main env w = (Thrown e, w') ∧
           db w' = db w ∧ calls w' = calls w ∧
           (length finalEdges = expectedEdgeCount →
            e = ReferenceSanityCheckFailed missing)) ∧
  (∀ e w', main env w = (Thrown e, w') → db w' = db w ∧ calls w' = calls w) ∧
  (length finalEdges = expectedEdgeCount →
   (∀ n, n ∈ nodes (graph techTree) →
         ∃ r refs, references n = Some (r :: refs)) →
   falsy (MONGODB_URI env) = false → mongoUp env = true →
   ∃ w' entries,
     main env w = (Ok (), w') ∧
     db w' = {| nodesCollection := finalNodes;
                edgesCollection := finalEdges |} ∧
     List.filter isWrite (calls w')
     = List.filter isWrite (calls w)
       ++ [DeleteManyNodes; DeleteManyEdges]
       ++ (if 0 <? length finalNodes then [InsertManyNodes finalNodes] else [])
       ++ (if 0 <? length finalEdges then [InsertManyEdges finalEdges] else []) ∧
     console w' = console w ++ entries ∧
     (missingInNodes finalNodes finalEdges ≠ [] →
      ConsoleWarn ["WARNING: IDs present in edges but NOT found in nodes:";
                   join ", " (missingInNodes finalNodes finalEdges)]
      ∈ entries) ∧
     (isolatedNodes finalNodes finalEdges ≠ [] →
      ConsoleWarn ["WARNING: Nodes not referenced by any edge (isolated):";
                   join ", " (isolatedNodes finalNodes finalEdges)]
      ∈ entries)).
Proof.
  intros Hsrc finalNodes finalEdges expectedEdgeCount missing. split_and!.
  - intros Hcount.
    destruct (main_edge_count_mismatch env techTree w Hsrc Hcount)
      as (w' & Hrun & Hdb & Hcalls & _). eauto.
  - intros Hrefs.
    destruct (decide (length finalEdges = expectedEdgeCount)) as [Hcount|Hcount].
    + destruct (main_missing_references env techTree w Hsrc Hcount Hrefs)
        as (w' & Hrun & Hdb & Hcalls & _). eauto 10.
    + destruct (main_edge_count_mismatch env techTree w Hsrc Hcount)
        as (w' & Hrun & Hdb & Hcalls & _).
      eexists _, w'. split_and!; [exact Hrun|done..].
  - intros e w' Hrun.
    by destruct (main_throws_before_store env w e w' Hrun) as (? & ? & _).
  - intros Hcount Hrefs Huri Hup.
    exact (main_seeds env techTree w Hsrc Hcount Hrefs Huri Hup).
Qed.

End Run.

(** The three cases of C3: a lost source makes the counts differ, node
    [B] cites nothing, and a dangling edge with an isolated node only
    warns while the store is replaced. *)
Lemma main_on_samples :
  (∃ w', main (Samples.env Samples.lostSource) Samples.world
         = (Thrown (EdgeSanityCheckFailed 2 1), w') ∧
         db w' = db Samples.world ∧ calls w' = []) ∧
  (∃ e w', main (Samples.env Samples.uncited) Samples.world = (Thrown e, w') ∧
           db w' = db Samples.world ∧ calls w' = [] ∧
           e = ReferenceSanityCheckFailed ["B"]) ∧
  (∃ w', main (Samples.env Samples.untidy) Samples.world = (Ok (), w') ∧
         List.map node_id (nodesCollection (db w')) = ["A"; "C"] ∧
         edgesCollection (db w') = [mkEdge "A" "Z"] ∧
         ConsoleWarn ["WARNING: IDs present in edges but NOT found in nodes:";
                      "Z"] ∈ console w' ∧
         ConsoleWarn ["WARNING: Nodes not referenced by any edge (isolated):";
                      "C"] ∈ console w').
Proof.
  split_and!.
  - destruct (proj1 (main_fatal_findings_precede_writes
                       (Samples.env Samples.lostSource) Samples.lostSource
                       Samples.world eq_refl))
      as (w' & Hrun & Hdb & Hcalls); [discriminate|].
    exists w'. split_and!; [exact Hrun | exact Hdb | exact Hcalls].
  - destruct (proj1 (proj2 (main_fatal_findings_precede_writes
                       (Samples.env Samples.uncited) Samples.uncited
                       Samples.world eq_refl)))
      as (e & w' & Hrun & Hdb & Hcalls & He).
    { exists (Samples.node "B" (Some [])). split; [|by right].
      apply list_elem_of_further, list_elem_of_here. }
    exists e, w'. split_and!; [exact Hrun | exact Hdb | exact Hcalls |].
    by apply He.
  - destruct (proj2 (proj2 (proj2 (main_fatal_findings_precede_writes
                       (Samples.env Samples.untidy) Samples.untidy
                       Samples.world eq_refl))))
      as (w' & entries & Hrun & Hdb & _ & Hconsole & Hmissing & Hisolated);
      [reflexivity| |reflexivity|reflexivity|].
    { intros n Hin. repeat (apply elem_of_cons in Hin as [->|Hin]);
        [by eexists _, _..|by apply elem_of_nil in Hin]. }
    exists w'. rewrite Hdb, Hconsole. split_and!; [exact Hrun|done|done|..].
    + apply elem_of_app. right. by apply Hmissing.
    + apply elem_of_app. right. by apply Hisolated.
Defined.

End MainFacts.

(** ** The view *)

Module ViewFacts.
Import View.

Lemma visitEdge_nodeIds nodeId acc e x :
  x ∈ nodeIds (visitEdge nodeId acc e) ↔
  x ∈ nodeIds acc ∨
  (Edge.source e = nodeId ∧ Edge.target e = x) ∨
  (Edge.target e = nodeId ∧ Edge.source e = x).
Proof.
  unfold visitEdge. repeat case_bool_decide; simpl;
    rewrite ?elem_of_union, ?elem_of_singleton; intuition congruence.
Qed.

Lemma visitEdge_edgeIds nodeId acc e i :
  i ∈ edgeIds (visitEdge nodeId acc e) ↔
  i ∈ edgeIds acc ∨
  (Edge.id e = i ∧ (Edge.source e = nodeId ∨ Edge.target e = nodeId)).
Proof.
  unfold visitEdge. repeat case_bool_decide; simpl;
    rewrite ?elem_of_union, ?elem_of_singleton; intuition congruence.
Qed.

Lemma foldl_visitEdge_nodeIds nodeId es acc x :
  x ∈ nodeIds (foldl (visitEdge nodeId) acc es) ↔
  x ∈ nodeIds acc ∨
  ∃ e, e ∈ es ∧ ((Edge.source e = nodeId ∧ Edge.target e = x) ∨
                 (Edge.target e = nodeId ∧ Edge.source e = x)).
Proof.
  revert acc. induction es as [|e0 es IH]; intros acc; simpl.
  - split; [auto|]. intros [?|(e & He & _)]; [done|by apply elem_of_nil in He].
  - rewrite IH, visitEdge_nodeIds. split.
    + intros [[?|?]|(e & He & ?)]; [by left| |].
      * right. exists e0. split; [apply list_elem_of_here|done].
      * right. exists e. split; [by apply list_elem_of_further|done].
    + intros [?|(e & He & ?)]; [by left; left|].
      apply elem_of_cons in He as [->|He]; [by left; right|].
      right. by exists e.
Qed.

Lemma foldl_visitEdge_edgeIds nodeId es acc i :
  i ∈ edgeIds (foldl (visitEdge nodeId) acc es) ↔
  i ∈ edgeIds acc ∨
  ∃ e, e ∈ es ∧ Edge.id e = i ∧
       (Edge.source e = nodeId ∨ Edge.target e = nodeId).
Proof.
  revert acc. induction es as [|e0 es IH]; intros acc; simpl.
  - split; [auto|]. intros [?|(e & He & _)]; [done|by apply elem_of_nil in He].
  - rewrite IH, visitEdge_edgeIds. split.
    + intros [[?|?]|(e & He & ?)]; [by left| |].
      * right. exists e0. split; [apply list_elem_of_here|done].
      * right. exists e. split; [by apply list_elem_of_further|done].
    + intros [?|(e & He & ?)]; [by left; left|].
      apply elem_of_cons in He as [->|He]; [by left; right|].
      right. by exists e.
Qed.

Lemma foldl_visitEdge_untouched nodeId es acc :
  (∀ e, e ∈ es → Edge.source e ≠ nodeId ∧ Edge.target e ≠ nodeId) →
  foldl (visitEdge nodeId) acc es = acc.
Proof.
  revert acc. induction es as [|e0 es IH]; intros acc Hes; simpl; [done|].
  destruct (Hes e0) as [Hs Ht]; [apply list_elem_of_here|].
  unfold visitEdge at 2. rewrite bool_decide_false by tauto. apply IH.
  intros e He. apply Hes. by apply list_elem_of_further.
Qed.

(** C7. [findConnectedElements] returns, as node identifiers, the anchor
    and the nodes joined to it by one edge, in either direction, and
    nothing else; as edge identifiers, those of the edges that have the
    anchor as source or as target, and nothing else. Nodes two edges away
    are not reached. An anchor that no edge touches yields the anchor
    alone and no edge. *)
Theorem findConnectedElements_one_hop nodeId allEdges :
  let connected := findConnectedElements nodeId allEdges in
  (∀ x, x ∈ nodeIds connected ↔
        x = nodeId ∨
        ∃ e, e ∈ allEdges ∧
             ((Edge.source e = nodeId ∧ Edge.target e = x) ∨
              (Edge.target e = nodeId ∧ Edge.source e = x))) ∧
  (∀ i, i ∈ edgeIds connected ↔
        ∃ e, e ∈ allEdges ∧ Edge.id e = i ∧
             (Edge.source e = nodeId ∨ Edge.target e = nodeId)) ∧
  ((∀ e, e ∈ allEdges → Edge.source e ≠ nodeId ∧ Edge.target e ≠ nodeId) →
   connected = {| nodeIds := {[ nodeId ]}; edgeIds := ∅ |}).
Proof.
  unfold findConnectedElements. split_and!.
  - intros x. rewrite foldl_visitEdge_nodeIds. simpl.
    by rewrite elem_of_singleton.
  - intros i. rewrite foldl_visitEdge_edgeIds. simpl.
    rewrite elem_of_empty. split; [by intros [[]|?] | by right].
  - apply foldl_visitEdge_untouched.
Qed.

Lemma elem_of_filter {A} (f : A → bool) (l : list A) (x : A) :
  x ∈ List.filter f l ↔ x ∈ l ∧ f x = true.
Proof. by rewrite !list_elem_of_In, filter_In. Qed.

Lemma sublist_filter_bool {A} (f : A → bool) (l : list A) :
  sublist (List.filter f l) l.
Proof.
  induction l as [|x l IH]; simpl; [constructor|].
  destruct (f x); by constructor.
Qed.

Lemma inCategory_true selectedCategory n :
  inCategory selectedCategory n = true ↔
  category (UiNode.data n) = Some selectedCategory.
Proof. unfold inCategory. by rewrite bool_decide_eq_true. Qed.

Lemma existsb_inCategory selectedCategory ns i :
  existsb (λ n, bool_decide (UiNode.id n = i) && inCategory selectedCategory n)
          ns = true ↔
  ∃ n, n ∈ List.filter (inCategory selectedCategory) ns ∧ UiNode.id n = i.
Proof.
  rewrite existsb_exists. split.
  - intros (n & Hin & [Hid Hcat]%andb_prop). exists n.
    rewrite elem_of_filter, list_elem_of_In.
    by apply bool_decide_eq_true in Hid.
  - intros (n & [Hin Hcat]%elem_of_filter & Hid). exists n.
    rewrite <-list_elem_of_In. split; [done|].
    by rewrite Hcat, bool_decide_true.
Qed.

(** C6. For a category other than the sentinel, which the component
    spells ["All"], the filter keeps exactly the nodes whose category is
    the selected one, and exactly the edges whose source and target are
    both identifiers of kept nodes; the kept nodes and edges stay in their
    original order. An edge with an endpoint outside the category is
    dropped. *)
Theorem filteredTechTree_induced techTree selectedCategory :
  selectedCategory ≠ "All" →
  let filtered := filteredTechTree techTree selectedCategory in
  (∀ n, n ∈ tt_nodes filtered ↔
        n ∈ tt_nodes techTree ∧
        category (UiNode.data n) = Some selectedCategory) ∧
  (∀ e, e ∈ tt_edges filtered ↔
        e ∈ tt_edges techTree ∧
        (∃ n, n ∈ tt_nodes filtered ∧ UiNode.id n = Edge.source e) ∧
        (∃ n, n ∈ tt_nodes filtered ∧ UiNode.id n = Edge.target e)) ∧
  sublist (tt_nodes filtered) (tt_nodes techTree) ∧
  sublist (tt_edges filtered) (tt_edges techTree).
Proof.
  intros Hsel. unfold filteredTechTree. rewrite bool_decide_true by done.
  cbn [tt_nodes tt_edges]. split_and!.
  - intros n. by rewrite elem_of_filter, inCategory_true.
  - intros e. rewrite elem_of_filter, andb_true_iff.
    by rewrite !existsb_inCategory.
  - apply sublist_filter_bool.
  - apply sublist_filter_bool.
Qed.

(** The sentinel leaves the graph as it is. *)
Lemma filteredTechTree_All techTree : filteredTechTree techTree "All" = techTree.
Proof. reflexivity. Qed.

(** C8. Changing the grouping mode sets the mode, clears the selection,
    the connected-only flag with its anchor and both highlight sets, and
    leaves the category filter (and the search) as they were. A reset
    clears the same things and the search, and sets the category filter
    to the sentinel ["All"]; no other handler writes the category
    filter. *)
Theorem handleGroupingModeChange_keeps_category mode s :
  let s' := handleGroupingModeChange mode s in
  (groupingMode s' = mode ∧
   selectedNode s' = None ∧
   showOnlyConnected s' = false ∧ showingRelatedNodes s' = None ∧
   nodeIds (highlightedElements s') = ∅ ∧
   edgeIds (highlightedElements s') = ∅ ∧
   selectedCategory s' = selectedCategory s ∧
   searchInput s' = searchInput s ∧ searchTerm s' = searchTerm s) ∧
  (selectedCategory (handleReset s) = "All" ∧
   selectedNode (handleReset s) = None ∧
   showOnlyConnected (handleReset s) = false ∧
   showingRelatedNodes (handleReset s) = None ∧
   highlightedElements (handleReset s) = noHighlight ∧
   groupingMode (handleReset s) = groupingMode s) ∧
  (∀ value, selectedCategory (handleSearchChange value s) = selectedCategory s) ∧
  (∀ nodeId, selectedCategory (handleShowConnected nodeId s)
             = selectedCategory s) ∧
  (∀ innerWidth nodeId,
     selectedCategory (handleShowDetails innerWidth nodeId s)
     = selectedCategory s) ∧
  selectedCategory (syncSearchTerm s) = selectedCategory s.
Proof.
  split_and!; try done.
  - intros nodeId. unfold handleShowConnected.
    by destruct (findNode nodeId (nodes s)).
  - intros innerWidth nodeId. unfold handleShowDetails.
    destruct (findNode nodeId (nodes s)); [|done].
    by destruct (innerWidth <? 768).
Qed.

Lemma findNode_Some nodeId ns node :
  findNode nodeId ns = Some node → node ∈ ns ∧ UiNode.id node = nodeId.
Proof.
  unfold findNode. intros [Hin Hid]%find_some.
  by rewrite list_elem_of_In, <-(bool_decide_eq_true (UiNode.id node = nodeId)).
Qed.

(** [find] returns the first member that passes the test. *)
Lemma findNode_first nodeId ns :
  (∃ n, n ∈ ns ∧ UiNode.id n = nodeId) →
  ∃ before node after,
    ns = before ++ node :: after ∧ UiNode.id node = nodeId ∧
    (∀ n, n ∈ before → UiNode.id n ≠ nodeId) ∧
    findNode nodeId ns = Some node.
Proof.
  unfold findNode. induction ns as [|n0 ns IH]; intros (n & Hin & Hid).
  - by apply elem_of_nil in Hin.
  - destruct (decide (UiNode.id n0 = nodeId)) as [Hid0|Hid0].
    + exists [], n0, ns. split_and!; [done|done| |].
      * intros ? []%elem_of_nil.
      * simpl. by rewrite bool_decide_true.
    + apply elem_of_cons in Hin as [->|Hin]; [done|].
      destruct IH as (before & node & after & -> & Hnode & Hbefore & Hfind);
        [by exists n|].
      exists (n0 :: before), node, after. split_and!; [done|done| |].
      * intros n' [->|Hn']%elem_of_cons; [done|by apply Hbefore].
      * simpl. by rewrite bool_decide_false.
Qed.

Lemma findNode_None nodeId ns :
  (∀ n, n ∈ ns → UiNode.id n ≠ nodeId) → findNode nodeId ns = None.
Proof.
  intros Hns. destruct (findNode nodeId ns) as [node|] eqn:Hfind; [|done].
  apply findNode_Some in Hfind as [Hin Hid]. by destruct (Hns node Hin).
Qed.

(** C9, as amended. Showing the details of a node whose identifier is
    among the rendered nodes sets the selection to the first rendered
    node with that identifier and the highlight sets to its one-hop
    neighbourhood over the rendered edges, and opens the panel on a narrow
    window; the search box and the search term are left as they were, as
    are the connected-only flag, its anchor, the grouping mode and the
    category filter. For an identifier that is not among the rendered
    nodes the state does not change. The search is cleared elsewhere: by
    showing the connected nodes of a rendered node and by a reset, which
    both empty the box and the term; a change of the search box puts the
    new text in the box, and the effect that follows puts it in the
    term. *)
Theorem handleShowDetails_keeps_search innerWidth nodeId s :
  let s' := handleShowDetails innerWidth nodeId s in
  (searchTerm s' = searchTerm s ∧ searchInput s' = searchInput s ∧
   showOnlyConnected s' = showOnlyConnected s ∧
   showingRelatedNodes s' = showingRelatedNodes s ∧
   groupingMode s' = groupingMode s ∧
   selectedCategory s' = selectedCategory s) ∧
  ((∃ n, n ∈ nodes s ∧ UiNode.id n = nodeId) →
   ∃ before node after,
     nodes s = before ++ node :: after ∧ UiNode.id node = nodeId ∧
     (∀ n, n ∈ before → UiNode.id n ≠ nodeId) ∧
     selectedNode s' = Some node ∧
     highlightedElements s' = findConnectedElements nodeId (edges s) ∧
     isPanelExpanded s'
     = (if innerWidth <? 768 then true else isPanelExpanded s)) ∧
  ((∀ n, n ∈ nodes s → UiNode.id n ≠ nodeId) → s' = s) ∧
  ((∃ n, n ∈ nodes s ∧ UiNode.id n = nodeId) →
   searchInput (handleShowConnected nodeId s) = "" ∧
   searchTerm (handleShowConnected nodeId s) = "") ∧
  ((∀ n, n ∈ nodes s → UiNode.id n ≠ nodeId) →
   handleShowConnected nodeId s = s) ∧
  (searchInput (handleReset s) = "" ∧ searchTerm (handleReset s) = "") ∧
  (∀ value,
     searchInput (handleSearchChange value s) = value ∧
     searchTerm (syncSearchTerm (handleSearchChange value s)) = value).
Proof.
  unfold handleShowDetails, handleShowConnected.
  split; [|split; [|split; [|split; [|split; [|done]]]]].
  - destruct (findNode nodeId (nodes s)) as [node|]; [|done].
    by destruct (innerWidth <? 768).
  - intros (before & node & after & Hnodes & Hid & Hbefore & ->)
      %findNode_first.
    exists before, node, after. by destruct (innerWidth <? 768).
  - by intros ->%findNode_None.
  - by intros (before & node & after & _ & _ & _ & ->)%findNode_first.
  - by intros ->%findNode_None.
Qed.

(** C10. Changing the search box clears the selection, the
    connected-only flag with its anchor and both highlight sets, and
    stores the new text in the search box; the search term still has its
    old value. The effect that follows copies the box into the term, and
    the cleared fields stay cleared. *)
Theorem handleSearchChange_clears_before_term value s :
  let s1 := handleSearchChange value s in
  let s2 := syncSearchTerm s1 in
  (selectedNode s1 = None ∧
   showOnlyConnected s1 = false ∧ showingRelatedNodes s1 = None ∧
   nodeIds (highlightedElements s1) = ∅ ∧
   edgeIds (highlightedElements s1) = ∅ ∧
   searchInput s1 = value ∧ searchTerm s1 = searchTerm s) ∧
  (searchTerm s2 = value ∧ searchInput s2 = value ∧
   selectedNode s2 = None ∧
   showOnlyConnected s2 = false ∧ showingRelatedNodes s2 = None ∧
   highlightedElements s2 = noHighlight).
Proof. done. Qed.

(** The example of the specification: nodes [A], [B] in [cat1] and [C]
    in [cat2] with the edge [A -> C], filtered to [cat1]. *)
Lemma filteredTechTree_twoCategories :
  "cat1" ≠ "All" ∧
  filteredTechTree Samples.twoCategories "cat1"
  = {| tt_nodes := [Samples.uiNode "A" (Some "cat1");
                    Samples.uiNode "B" (Some "cat1")];
       tt_edges := [] |} ∧
  Samples.uiNode "B" (Some "cat1")
  ∈ tt_nodes (filteredTechTree Samples.twoCategories "cat1") ∧
  Samples.uiEdge "A" "C"
  ∉ tt_edges (filteredTechTree Samples.twoCategories "cat1").
Proof.
  assert (Hsel : "cat1" ≠ "All") by discriminate.
  destruct (filteredTechTree_induced Samples.twoCategories "cat1" Hsel)
    as (Hnodes & Hedges & _).
  split_and!; [exact Hsel | reflexivity | |].
  - apply Hnodes. split; [|reflexivity].
    apply list_elem_of_further, list_elem_of_here.
  - intros (_ & _ & n & Hn & Hid)%Hedges. apply Hnodes in Hn as [Hin Hcat].
    repeat (apply elem_of_cons in Hin as [->|Hin]); try discriminate.
    by apply elem_of_nil in Hin.
Defined.

(** The example of the specification: with [X -> Y] and [Z -> X] the
    neighbourhood of [X] is [{X, Y, Z}] with both edges; [W], two edges
    away, is not in it; no edge touches [Q]. *)
Lemma findConnectedElements_aroundX :
  nodeIds (findConnectedElements "X" Samples.aroundX)
  = {[ "X"; "Y"; "Z" ]} ∧
  ("W" ∉ nodeIds (findConnectedElements "X" Samples.aroundX)) ∧
  edgeIds (findConnectedElements "X" Samples.aroundX)
  = {[ Seed.edgeId "X" "Y"; Seed.edgeId "Z" "X" ]} ∧
  findConnectedElements "Q" Samples.aroundX
  = {| nodeIds := {[ "Q" ]}; edgeIds := ∅ |}.
Proof.
  destruct (findConnectedElements_one_hop "X" Samples.aroundX)
    as (Hnodes & _ & _).
  destruct (findConnectedElements_one_hop "Q" Samples.aroundX)
    as (_ & _ & Hisolated).
  split_and!.
  - by vm_compute.
  - intros [Heq|(e & He & Hadj)]%Hnodes; [discriminate|].
    repeat (apply elem_of_cons in He as [->|He]);
      [by destruct Hadj as [[??]|[??]]..|by apply elem_of_nil in He].
  - by vm_compute.
  - apply Hisolated. intros e He.
    repeat (apply elem_of_cons in He as [->|He]);
      [by split..|by apply elem_of_nil in He].
Defined.

(** C9 fails as stated: the details of a node are shown in the middle of
    a search for ["solar"], and the search term stays. *)
Lemma handleShowDetails_search_stays :
  searchTerm Samples.searching ≠ "" ∧
  selectedNode (handleShowDetails 1024 "solar_pv" Samples.searching)
  = Some (Samples.uiNode "solar_pv" (Some "Solar")) ∧
  searchTerm (handleShowDetails 1024 "solar_pv" Samples.searching) = "solar" ∧
  searchTerm (handleShowDetails 1024 "solar_pv" Samples.searching) ≠ "".
Proof. split_and!; [discriminate | reflexivity | reflexivity | discriminate]. Qed.

(** The same state through the amended statement: the second rendered
    node is found and selected and the search stays; an identifier that
    is not rendered changes nothing; showing the connected nodes and a
    reset empty the search. *)
Lemma handleShowDetails_on_searching :
  (∃ n, n ∈ nodes Samples.searching ∧ UiNode.id n = "solar_thermal") ∧
  selectedNode (handleShowDetails 1024 "solar_thermal" Samples.searching)
  = Some (Samples.uiNode "solar_thermal" (Some "Solar")) ∧
  searchTerm (handleShowDetails 1024 "solar_thermal" Samples.searching)
  = "solar" ∧
  (∀ n, n ∈ nodes Samples.searching → UiNode.id n ≠ "wind") ∧
  handleShowDetails 1024 "wind" Samples.searching = Samples.searching ∧
  searchTerm (handleShowConnected "solar_thermal" Samples.searching) = "" ∧
  searchTerm (handleReset Samples.searching) = "".
Proof.
  assert (Hin : ∃ n, n ∈ nodes Samples.searching
                     ∧ UiNode.id n = "solar_thermal").
  { exists (Samples.uiNode "solar_thermal" (Some "Solar")).
    split; [|reflexivity]. apply list_elem_of_further, list_elem_of_here. }
  assert (Hout : ∀ n, n ∈ nodes Samples.searching → UiNode.id n ≠ "wind").
  { intros n Hn. repeat (apply elem_of_cons in Hn as [->|Hn]);
      [discriminate..|by apply elem_of_nil in Hn]. }
  destruct (handleShowDetails_keeps_search 1024 "solar_thermal"
              Samples.searching)
    as ((Hterm & _) & Hfound & _ & Hconnected & _ & (_ & Hreset) & _).
  destruct (handleShowDetails_keeps_search 1024 "wind" Samples.searching)
    as (_ & _ & Hnone & _).
  split_and!; [exact Hin | reflexivity | | exact Hout | | |].
  - rewrite Hterm. reflexivity.
  - exact (Hnone Hout).
  - exact (proj2 (Hconnected Hin)).
  - exact Hreset.
Defined.

End ViewFacts.

(** * Further properties *)

(** ** Scalars and nodes, once more *)

Module ScalarExtras.
Import Seed Digits.

Lemma append_empty_r s : s +:+ "" = s.
Proof. induction s as [|c s IH]; [done|]. by rewrite DigitsFacts.append_String, IH. Qed.

Lemma matchDigits_digits run :
  run ≠ "" → allDigits run = true → matchDigits run = Some run.
Proof.
  intros Hne Hall. apply DigitsFacts.firstDigitRun_matchDigits.
  exists "", "". by rewrite DigitsFacts.append_empty, append_empty_r.
Qed.

Section Nodes.

Context {number unknown : Type} `{!JsNumber number}.
Implicit Types (value : TrlValue number).
Implicit Types (node : @RawNode number unknown).
Implicit Types (nodes : list (@RawNode number unknown)).
Implicit Types (w : @World number unknown).

Lemma toSingleTrl_shape value d :
  d ≠ "" → allDigits d = true →
  toSingleTrl value d ≠ "" ∧ allDigits (toSingleTrl value d) = true.
Proof.
  intros Hne Hall. unfold toSingleTrl.
  destruct (textualForm value) as [text|]; [|done].
  destruct (matchDigits text) as [run|] eqn:Hrun; [|done].
  apply DigitsFacts.matchDigits_Some in Hrun as (? & ? & _ & _ & ? & ? & _).
  done.
Qed.

(** X1. When the default is a non-empty string of digits, as ["1"] is,
    the result of [toSingleTrl] is a non-empty string of digits whatever
    the raw value, and normalising that result again, with any default,
    gives it back. *)
Theorem toSingleTrl_idempotent value d d' :
  d ≠ "" → allDigits d = true →
  let r := toSingleTrl value d in
  r ≠ "" ∧ allDigits r = true ∧
  toSingleTrl (TrlString r : TrlValue number) d' = r.
Proof.
  intros Hne Hall. destruct (toSingleTrl_shape value d Hne Hall) as [Hr Hdigits].
  split_and!; [done..|].
  unfold toSingleTrl at 1. cbn [textualForm].
  by rewrite matchDigits_digits.
Qed.

Lemma normalizeNode_idempotent node :
  normalizeNode (normalizeNode node) = normalizeNode node.
Proof.
  assert (∀ value, toSingleTrl
            (TrlString (toSingleTrl value "1") : TrlValue number) "1"
          = toSingleTrl value "1") as Hidem.
  { intros value. by apply (toSingleTrl_idempotent value "1" "1"). }
  destruct node as [i l t c cur proj desc refs ext].
  unfold normalizeNode.
  destruct proj as [projected|];
    cbn [node_id node_label node_type node_category trl_current
         trl_projected_5_10_years description references extra
         prop from_option id];
    by rewrite ?Hidem.
Qed.

(** X2. Normalising nodes is idempotent: [normalizeNodes] run on its own
    result returns that result unchanged. *)
Theorem normalizeNodes_idempotent nodes w :
  ∃ normalized w1 w2,
    normalizeNodes nodes w = (Ok normalized, w1) ∧
    normalizeNodes normalized w1 = (Ok normalized, w2).
Proof.
  destruct (NodeFacts.normalizeNodes_run nodes w) as [entry1 Hrun1].
  destruct (NodeFacts.normalizeNodes_run (List.map normalizeNode nodes)
              (logged [entry1] w)) as [entry2 Hrun2].
  eexists _, _, _. split; [exact Hrun1|]. rewrite Hrun2. do 2 f_equal.
  rewrite map_map. apply map_ext. intros node. apply normalizeNode_idempotent.
Qed.

Lemma filter_present {A} (key : string) (field : option A) :
  Reseed.strayProjection key = false →
  List.filter Reseed.strayProjection (present key field) = [].
Proof. intros Hkey. destruct field; simpl; by rewrite ?Hkey. Qed.

Lemma unexpectedKeys_extra node :
  unexpectedKeys node
  = List.filter Reseed.strayProjection ((map_to_list (extra node)).*1).
Proof.
  unfold unexpectedKeys, keys.
  change (λ k, String.prefix "trl_projected" k
               && negb (String.eqb k "trl_projected_5_10_years"))
    with Reseed.strayProjection.
  rewrite !List.filter_app, !filter_present by reflexivity. reflexivity.
Qed.

Lemma unexpectedKeys_stray node :
  (0 <? length (unexpectedKeys node)) = true ↔
  ∃ k, is_Some (extra node !! k) ∧ Reseed.strayProjection k = true.
Proof.
  rewrite unexpectedKeys_extra. split.
  - destruct (List.filter _ _) as [|k ks] eqn:Hks; [done|]. intros _.
    assert (In k (List.filter Reseed.strayProjection
                    ((map_to_list (extra node)).*1))) as Hin
      by (rewrite Hks; by left).
    apply filter_In in Hin as [Hin Hk]. exists k. split; [|done].
    apply list_elem_of_In, list_elem_of_fmap in Hin as ([k' x] & -> & Hin).
    apply elem_of_map_to_list in Hin. by exists x.
  - intros (k & [x Hx] & Hk).
    assert (In k (List.filter Reseed.strayProjection
                    ((map_to_list (extra node)).*1))) as Hin.
    { apply filter_In. split; [|done].
      apply list_elem_of_In, list_elem_of_fmap. exists (k, x).
      split; [done|]. by apply elem_of_map_to_list. }
    by destruct (List.filter _ _).
Qed.

(** X3. [normalizeNodes] prints one line. It is the line that the key
    check passed when no node has, among its additional attributes, a
    key that starts with [trl_projected] other than
    [trl_projected_5_10_years]; as soon as one node has such a key it is a
    warning that lists the identifiers of the nodes that have one, and of
    no other node. The nodes are normalised all the same. *)
Theorem normalizeNodes_reports_stray_keys nodes w :
  (Forall (λ node, ∀ k, is_Some (extra node !! k) →
                        Reseed.strayProjection k = false) nodes →
   normalizeNodes nodes w
   = (Ok (List.map normalizeNode nodes),
      logged [ConsoleLog
                ["TRL key consistency check passed: no unexpected keys."]] w)) ∧
  (∀ node k, node ∈ nodes → is_Some (extra node !! k) →
     Reseed.strayProjection k = true →
     ∃ ids,
       normalizeNodes nodes w
       = (Ok (List.map normalizeNode nodes),
          logged [ConsoleWarn
                    ["WARNING: Nodes with inconsistent trl_projected keys:";
                     join ", " ids]] w) ∧
       node_id node ∈ ids ∧
       ∀ i, i ∈ ids →
         ∃ node' k', node' ∈ nodes ∧ node_id node' = i ∧
                     is_Some (extra node' !! k') ∧
                     Reseed.strayProjection k' = true).
Proof.
  unfold normalizeNodes. split.
  - intros Hclean.
    replace (List.filter _ nodes) with (@nil (@RawNode number unknown)); [done|].
    induction Hclean as [|node nodes Hnode _ IH]; simpl; [done|].
    destruct (0 <? length (unexpectedKeys node)) eqn:Hstray; [|done].
    apply unexpectedKeys_stray in Hstray as (k & Hk & Hstray).
    by rewrite (Hnode k Hk) in Hstray.
  - intros node k Hin Hk Hstray.
    set (bad := List.filter _ nodes).
    assert (∀ n, In n bad ↔ In n nodes ∧
              ∃ k, is_Some (extra n !! k) ∧ Reseed.strayProjection k = true)
      as Hbad.
    { intros n. unfold bad. by rewrite filter_In, unexpectedKeys_stray. }
    assert (In node bad) as Hnode.
    { apply Hbad. split; [by apply list_elem_of_In|]. by exists k. }
    exists (List.map node_id bad). split_and!.
    + destruct bad; [done|reflexivity].
    + by apply list_elem_of_In, in_map.
    + intros i (n & <- & Hn)%list_elem_of_In%in_map_iff.
      apply Hbad in Hn as (Hn & k' & ? & ?). exists n, k'.
      by rewrite list_elem_of_In.
Qed.

End Nodes.

(** X1 on the example of the script's comment. *)
Lemma toSingleTrl_idempotent_example :
  "1" ≠ "" ∧ allDigits "1" = true ∧
  toSingleTrl (TrlString "7-9 (LWRs); 4-6" : TrlValue SafeInteger) "1" = "7" ∧
  toSingleTrl
    (TrlString (toSingleTrl (TrlString "7-9 (LWRs); 4-6" : TrlValue SafeInteger) "1")
       : TrlValue SafeInteger) "9" = "7".
Proof.
  assert (H1 : "1" ≠ "") by discriminate.
  destruct (toSingleTrl_idempotent
              (TrlString "7-9 (LWRs); 4-6" : TrlValue SafeInteger) "1" "9" H1 eq_refl)
    as (_ & _ & Hagain).
  split_and!; [exact H1 | reflexivity | reflexivity |].
  rewrite Hagain. reflexivity.
Defined.

(** X3 on two nodes: [B] carries a projection under an unknown key. *)
Lemma normalizeNodes_reports_rated :
  ∃ ids,
    console (normalizeNodes [Samples.cited "A"; Samples.rated "B"]
               Samples.world).2
    = [ConsoleWarn ["WARNING: Nodes with inconsistent trl_projected keys:";
                    join ", " ids]] ∧
    "B" ∈ ids.
Proof.
  destruct (proj2 (normalizeNodes_reports_stray_keys
                     [Samples.cited "A"; Samples.rated "B"] Samples.world)
              (Samples.rated "B") "trl_projected_15_years")
    as (ids & Hrun & Hin & _).
  - apply list_elem_of_further, list_elem_of_here.
  - by exists "8".
  - reflexivity.
  - exists ids. rewrite Hrun. by split.
Defined.

End ScalarExtras.

(** ** Edges, once more *)

Module EdgeExtras.
Import Seed.

Lemma falsy_false s : s ≠ "" → falsy (Some s) = false.
Proof. by destruct s. Qed.

Lemma falsy_Some_inv v : falsy v = false → ∃ s, v = Some s ∧ s ≠ "".
Proof. destruct v as [[|c s]|]; [done| |done]. intros _. by eexists. Qed.

(** X4. The normaliser works record by record and keeps the order of
    the records: the edges of two lists of records put end to end are the
    edges of the first followed by the edges of the second, and their
    expected counts add up. *)
Theorem normalizedEdgesOf_app before after :
  normalizedEdgesOf (before ++ after)
  = normalizedEdgesOf before ++ normalizedEdgesOf after ∧
  expectedCountOf (before ++ after)
  = expectedCountOf before + expectedCountOf after.
Proof.
  unfold normalizedEdgesOf, expectedCountOf. split.
  - by rewrite !EdgeFacts.foldl_pushEdges, flat_map_app.
  - rewrite !EdgeFacts.foldl_countEdge, map_app. simpl.
    induction (List.map contribution before) as [|n ns IH]; simpl; lia.
Qed.

(** X5. Fan-out. A record with a non-empty source, no [target] key and
    an array of targets is counted for the length of the array and gives
    one edge per target, in the order of the array, each from the source
    to that target; the identifiers of these edges are pairwise distinct
    when the targets are. *)
Theorem multi_target_fan_out sourceId targets :
  sourceId ≠ "" →
  let record := {| raw_source := Some sourceId; raw_target := None;
                   raw_targets := Some targets |} in
  normalizedEdgesOf [record] = List.map (mkEdge sourceId) targets ∧
  expectedCountOf [record] = length targets ∧
  length (normalizedEdgesOf [record]) = length targets ∧
  (NoDup targets → NoDup (List.map edge_id (normalizedEdgesOf [record]))).
Proof.
  intros Hsrc record.
  assert (normalizedEdgesOf [record] = List.map (mkEdge sourceId) targets)
    as Hout.
  { unfold normalizedEdgesOf. cbn [foldl]. rewrite EdgeFacts.pushEdges_app.
    cbn [raw_source record]. by rewrite falsy_false. }
  rewrite Hout, length_map. split_and!; [done..|].
  intros Hnd. rewrite map_map. cbn [edge_id mkEdge]. clear Hout record.
  induction Hnd as [|t ts Hnotin _ IH]; simpl; [constructor|].
  constructor; [|done].
  intros (t' & Hid & Hin)%list_elem_of_In%in_map_iff. unfold edgeId in Hid.
  do 3 apply (inj (String.app _)) in Hid. subst t'.
  by apply Hnotin, list_elem_of_In.
Qed.

Lemma normalizedEdgesOf_source originalEdges e :
  e ∈ normalizedEdgesOf originalEdges → edge_source e ≠ "".
Proof.
  unfold normalizedEdgesOf. rewrite EdgeFacts.foldl_pushEdges. simpl.
  rewrite list_elem_of_In, in_flat_map. intros (record & _ & He).
  destruct (falsy (raw_source record)) eqn:Hsrc; [done|].
  apply falsy_Some_inv in Hsrc as (sourceId & Hsrc & Hne).
  rewrite Hsrc in He. simpl in He.
  by apply in_map_iff in He as (targetId & <- & _).
Qed.

(** X6. What is emitted, and nothing else. An edge is emitted exactly
    when some record has a non-empty source and lists the target: under
    its [target] key, or, when it has no [target] key, in its [targets]
    array (a [targets] array beside a [target] key is ignored). The edge
    then has that source, that target and the identifier built from
    them; no emitted edge has an empty source. *)
Theorem normalizedEdgesOf_spec originalEdges e :
  e ∈ normalizedEdgesOf originalEdges ↔
  ∃ record sourceId targetId,
    record ∈ originalEdges ∧
    raw_source record = Some sourceId ∧ sourceId ≠ "" ∧
    (raw_target record = Some targetId ∨
     (raw_target record = None ∧
      ∃ targets, raw_targets record = Some targets ∧ targetId ∈ targets)) ∧
    e = mkEdge sourceId targetId.
Proof.
  unfold normalizedEdgesOf. rewrite EdgeFacts.foldl_pushEdges. simpl.
  rewrite list_elem_of_In, in_flat_map. split.
  - intros (record & Hin & He).
    destruct (falsy (raw_source record)) eqn:Hsrc; [done|].
    apply falsy_Some_inv in Hsrc as (sourceId & Hsrc & Hne).
    rewrite Hsrc in He. simpl in He.
    apply in_map_iff in He as (targetId & <- & Ht).
    exists record, sourceId, targetId.
    split_and!; [by apply list_elem_of_In|done..| |done].
    unfold listedTargets in Ht.
    destruct (raw_target record) as [t|].
    + left. by destruct Ht as [->|?].
    + right. split; [done|]. destruct (raw_targets record) as [ts|]; [|done].
      exists ts. by rewrite list_elem_of_In.
  - intros (record & sourceId & targetId & Hin & Hsrc & Hne & Ht & ->).
    exists record. split; [by apply list_elem_of_In|].
    rewrite Hsrc, falsy_false by done. simpl. apply in_map.
    unfold listedTargets.
    destruct Ht as [->|(-> & ts & -> & Ht)]; [by left|].
    by apply list_elem_of_In.
Qed.

Lemma listedTargets_nil record :
  listedTargets record = [] ↔
  raw_target record = None ∧
  (raw_targets record = None ∨ raw_targets record = Some []).
Proof.
  unfold listedTargets.
  destruct (raw_target record); destruct (raw_targets record) as [[|t ts]|];
    simpl; (split; [intros H|intros [H1 [H2|H2]]]);
    try done; auto.
Qed.

Section Check.

Context {number unknown : Type}.
Implicit Types (w : @World number unknown).

(** X7. When the edge-count check passes. The check that [main] runs on
    the result of [normalizeTechTreeEdges] passes exactly when every
    record without a usable source lists no target at all: it has no
    [target] key and no, or an empty, [targets] array. One source-less
    record that lists a target makes the check throw. *)
Theorem runEdgeSanityCheck_passes_iff
    (treeData : @TechTreeData number unknown RawEdge) w :
  let result := normalizeTechTreeEdges treeData in
  (∃ w', runEdgeSanityCheck (length (edges (graph result.1))) result.2 w
         = (Ok (), w')) ↔
  Forall (λ record,
            falsy (raw_source record) = true →
            raw_target record = None ∧
            (raw_targets record = None ∨ raw_targets record = Some []))
         (edges (graph treeData)).
Proof.
  simpl. unfold runEdgeSanityCheck.
  pose proof (EdgeFacts.length_normalizedEdgesOf (edges (graph treeData)))
    as Hlen.
  transitivity (skippedCount (edges (graph treeData)) = 0).
  - case_bool_decide as Hne.
    + split; [by intros [w' [=]]|lia].
    + split; [lia|]. intros _. by eexists.
  - rewrite EdgeFacts.skippedCount_0_iff. apply Forall_iff. intros record.
    by rewrite listedTargets_nil.
Qed.

Lemma normalizedEdgesOf_cast (out : list NormalizedEdge) :
  (∀ e, e ∈ out → e = mkEdge (edge_source e) (edge_target e)
                  ∧ edge_source e ≠ "") →
  normalizedEdgesOf (List.map Reseed.asRawEdge out) = out ∧
  expectedCountOf (List.map Reseed.asRawEdge out) = length out.
Proof.
  unfold normalizedEdgesOf, expectedCountOf.
  rewrite EdgeFacts.foldl_pushEdges, EdgeFacts.foldl_countEdge. simpl.
  induction out as [|e out IH]; intros Hout; simpl; [done|].
  destruct (Hout e) as [He Hsrc]; [apply list_elem_of_here|].
  destruct IH as [IH1 IH2].
  { intros e' He'. apply Hout. by apply list_elem_of_further. }
  rewrite IH1, IH2. destruct (edge_source e) eqn:Hs; [done|].
  by rewrite <-He.
Qed.

(** X8. Normalised edges are a fixed point. Read as raw records, the
    edges that [normalizeTechTreeEdges] returns normalise to themselves,
    with the same identifiers and in the same order, and their expected
    count is their number: a second pass changes nothing and its
    edge-count check cannot fail. *)
Theorem normalizeTechTreeEdges_fixed_point
    (treeData : @TechTreeData number unknown RawEdge) :
  let first := normalizeTechTreeEdges treeData in
  let again :=
    normalizeTechTreeEdges
      {| graph := {| nodes := nodes (graph first.1);
                     edges := List.map Reseed.asRawEdge
                                (edges (graph first.1)) |} |} in
  again = (first.1, length (edges (graph first.1))).
Proof.
  simpl. unfold normalizeTechTreeEdges. cbn [graph nodes edges].
  destruct (normalizedEdgesOf_cast
              (normalizedEdgesOf (edges (graph treeData)))) as [-> ->]; [|done].
  intros e He. split; [by apply EdgeFacts.edge_id_normalizedEdgesOf in He|].
  by apply normalizedEdgesOf_source in He.
Qed.

End Check.

(** X5 on a record with three targets. *)
Lemma multi_target_fan_out_example :
  "D" ≠ "" ∧
  normalizedEdgesOf [Samples.multi "D" ["A"; "B"; "C"]]
  = [mkEdge "D" "A"; mkEdge "D" "B"; mkEdge "D" "C"] ∧
  NoDup (List.map edge_id
           (normalizedEdgesOf [Samples.multi "D" ["A"; "B"; "C"]])).
Proof.
  assert (Hsrc : "D" ≠ "") by discriminate.
  destruct (multi_target_fan_out "D" ["A"; "B"; "C"] Hsrc)
    as (Hout & _ & _ & Hids).
  split_and!; [exact Hsrc | exact Hout |].
  apply Hids. refine (bool_decide_unpack _ _). vm_compute. exact I.
Defined.

End EdgeExtras.

(** ** The identifier check *)

Module CheckExtras.
Import Seed.

Lemma setAdd_elem s x y : y ∈ setAdd s x ↔ y ∈ s ∨ y = x.
Proof.
  unfold setAdd. case_bool_decide as Hx.
  - split; [by left|]. by intros [?| ->].
  - by rewrite elem_of_app, list_elem_of_singleton.
Qed.

Lemma setAdd_NoDup s x : NoDup s → NoDup (setAdd s x).
Proof.
  unfold setAdd. intros Hs. case_bool_decide as Hx; [done|].
  apply NoDup_app. split_and!; [done| |apply NoDup_singleton].
  intros y Hy ->%list_elem_of_singleton. done.
Qed.

Lemma foldl_setAdd_elem xs s y : y ∈ foldl setAdd s xs ↔ y ∈ s ∨ y ∈ xs.
Proof.
  revert s. induction xs as [|x xs IH]; intros s; simpl.
  - rewrite elem_of_nil. tauto.
  - rewrite IH, setAdd_elem, elem_of_cons. tauto.
Qed.

Lemma foldl_setAdd_NoDup xs s : NoDup s → NoDup (foldl setAdd s xs).
Proof.
  revert s. induction xs as [|x xs IH]; intros s Hs; simpl; [done|].
  by apply IH, setAdd_NoDup.
Qed.

Lemma newSet_elem xs y : y ∈ newSet xs ↔ y ∈ xs.
Proof. unfold newSet. rewrite foldl_setAdd_elem, elem_of_nil. tauto. Qed.

Lemma newSet_NoDup xs : NoDup (newSet xs).
Proof. apply foldl_setAdd_NoDup, NoDup_nil_2. Qed.

Section Check.

Context {number unknown : Type}.
Implicit Types (nodes : list (@RawNode number unknown)).
Implicit Types (edges : list NormalizedEdge).

Lemma endpointIds_fold edges s y :
  y ∈ foldl (λ s e, setAdd (setAdd s (edge_source e)) (edge_target e)) s edges
  ↔ y ∈ s ∨ ∃ e, e ∈ edges ∧ (y = edge_source e ∨ y = edge_target e).
Proof.
  revert s. induction edges as [|e0 edges IH]; intros s; simpl.
  - split; [by left|]. intros [?|(e & He & _)]; [done|].
    by apply elem_of_nil in He.
  - rewrite IH, !setAdd_elem. split.
    + intros [[[?|?]|?]|(e & He & ?)]; [by left|..].
      * right. exists e0. split; [apply list_elem_of_here|by left].
      * right. exists e0. split; [apply list_elem_of_here|by right].
      * right. exists e. split; [by apply list_elem_of_further|done].
    + intros [?|(e & He & Hy)]; [by left; left; left|].
      apply elem_of_cons in He as [->|He].
      * left. destruct Hy; [by left; right|by right].
      * right. by exists e.
Qed.

Lemma endpointIds_elem edges y :
  y ∈ endpointIds edges ↔
  ∃ e, e ∈ edges ∧ (y = edge_source e ∨ y = edge_target e).
Proof. unfold endpointIds. rewrite endpointIds_fold, elem_of_nil. tauto. Qed.

Lemma endpointIds_NoDup edges : NoDup (endpointIds edges).
Proof.
  unfold endpointIds. generalize (NoDup_nil_2 (A:=string)).
  generalize (@nil string).
  induction edges as [|e edges IH]; intros s Hs; simpl; [done|].
  by apply IH, setAdd_NoDup, setAdd_NoDup.
Qed.

Lemma NoDup_filter_bool {A} (f : A → bool) (l : list A) :
  NoDup l → NoDup (List.filter f l).
Proof.
  induction 1 as [|x l Hx _ IH]; simpl; [constructor|].
  destruct (f x); [|done]. constructor; [|done].
  intros Hin%list_elem_of_In%filter_In. apply Hx, list_elem_of_In, Hin.
Qed.

(** X9. Dangling endpoints. The identifiers that [runIdConsistencyCheck]
    reports as present in edges but not found in nodes are exactly the
    sources and targets of edges that are the identifier of no node, each
    reported once however many edges mention it. *)
Theorem missingInNodes_spec nodes edges :
  NoDup (missingInNodes nodes edges) ∧
  ∀ i, i ∈ missingInNodes nodes edges ↔
       (∃ e, e ∈ edges ∧ (i = edge_source e ∨ i = edge_target e)) ∧
       ¬ ∃ n, n ∈ nodes ∧ node_id n = i.
Proof.
  unfold missingInNodes. split.
  - apply NoDup_filter_bool, endpointIds_NoDup.
  - intros i. rewrite list_elem_of_In, filter_In, <-list_elem_of_In.
    rewrite endpointIds_elem, negb_true_iff. unfold setHas.
    rewrite bool_decide_eq_false, newSet_elem, list_elem_of_In, in_map_iff.
    setoid_rewrite <-list_elem_of_In.
    split; (intros [He Hn]; split; [done|]); intros (n & Hn1 & Hn2);
      apply Hn; by exists n.
Qed.

(** X10. Isolated nodes. The identifiers that [runIdConsistencyCheck]
    reports as isolated are exactly the node identifiers that are the
    source and the target of no edge, each reported once even when two
    nodes share it; a node whose only edge is a loop on itself is not
    isolated. *)
Theorem isolatedNodes_spec nodes edges :
  NoDup (isolatedNodes nodes edges) ∧
  ∀ i, i ∈ isolatedNodes nodes edges ↔
       (∃ n, n ∈ nodes ∧ node_id n = i) ∧
       ¬ ∃ e, e ∈ edges ∧ (i = edge_source e ∨ i = edge_target e).
Proof.
  unfold isolatedNodes. split.
  - apply NoDup_filter_bool, newSet_NoDup.
  - intros i. rewrite list_elem_of_In, filter_In, <-list_elem_of_In.
    rewrite newSet_elem, negb_true_iff. unfold setHas.
    rewrite bool_decide_eq_false, endpointIds_elem, list_elem_of_In, in_map_iff.
    setoid_rewrite <-list_elem_of_In.
    split; (intros [(n & Hn1 & Hn2) He]; split; [by exists n|done]).
Qed.

End Check.
End CheckExtras.

(** ** More runs of [main] *)

Module MainExtras.
Import Seed.

(** One step of a run: the computation to the left of a bind returns. *)
Ltac step := erewrite MainFacts.bind_Ok by reflexivity.

(** The steps of [main] on a parsed document, up to the sanity checks. *)
Ltac run_to_checks Hsrc :=
  unfold main;
  step;
  erewrite MainFacts.bind_Ok by (unfold readSource; rewrite Hsrc; reflexivity);
  do 2 step;
  match goal with
  | |- context [(normalizeNodes ?ns ≫= _) ?W] =>
      let entry := fresh "entry" in
      let Hrun := fresh "Hrun" in
      destruct (NodeFacts.normalizeNodes_run ns W) as [entry Hrun];
      erewrite MainFacts.bind_Ok by exact Hrun; clear Hrun
  end;
  step;
  unfold normalizeTechTreeEdges; cbn [graph nodes edges];
  do 4 step.

(** The steps from the sanity checks, when both pass, to the connection. *)
Ltac run_checks Hcount Hrefs :=
  erewrite MainFacts.bind_Ok
    by (unfold runEdgeSanityCheck;
        rewrite bool_decide_false by (by intros ?); reflexivity);
  erewrite MainFacts.bind_Ok
    by (by apply MainFacts.runReferenceSanityCheck_passes);
  match goal with
  | |- context [(runIdConsistencyCheck ?a ?b ≫= _) ?W] =>
      let report := fresh "report" in
      let Hrun := fresh "Hrun" in
      destruct (MainFacts.runIdConsistencyCheck_run a b W)
        as (report & Hrun & _);
      erewrite MainFacts.bind_Ok by exact Hrun; clear Hrun
  end.

Section Run.

Context {number unknown : Type} `{!JsNumber number}.
Implicit Types (w : @World number unknown) (env : @Env number unknown).
Implicit Types (techTree : @TechTreeData number unknown RawEdge).

(** X11. An unreachable server. On a document that passes both fatal
    checks, with the connection string set, a server that does not answer
    does not make [main] throw: the error is caught and printed, the exit
    code is set to 1, the client is closed, and the store is left as it
    was, without a single delete or insert. *)
Theorem main_server_unreachable env techTree w :
  sourceFile env = FileParsed techTree → Reseed.sound techTree →
  falsy (MONGODB_URI env) = false → mongoUp env = false →
  ∃ w' entries,
    main env w = (Ok (), w') ∧
    db w' = db w ∧
    calls w' = calls w ++ [Connect (default "" (MONGODB_URI env)); Close] ∧
    exitCode w' = Some 1 ∧
    console w' = console w ++ entries ∧
    ConsoleError [nl +:+ "An error occurred during the seeding process:";
                  message MongoUnreachable] ∈ entries.
Proof.
  intros Hsrc [Hcount Hrefs] Huri Hup. run_to_checks Hsrc.
  run_checks Hcount Hrefs. rewrite Huri. step.
  rewrite !MainFacts.logged_logged. unfold tryCatchFinally, seed.
  erewrite MainFacts.bind_Thrown by (unfold connect; rewrite Hup; reflexivity).
  cbv beta iota. step. unfold setExitCode. cbv beta iota. step.
  unfold console_log, console_error, print.
  eexists _, _. split; [reflexivity|].
  cbn [db calls console exitCode logged]. rewrite <-!app_assoc.
  split_and!; [done..|reflexivity|].
  rewrite !elem_of_app, !list_elem_of_singleton. tauto.
Qed.

(** X12. Errors of the surroundings, and their place in the order. A
    missing file makes [main] throw that the file was not found at its
    path, and a file that does not parse makes it throw the parser's
    error, both right after the first console line. A connection string
    that is unset or empty makes it throw only once the document has been
    read, normalised and checked, both fatal checks having passed. In the
    three cases no driver call has been made. *)
Theorem main_environment_errors env w :
  (sourceFile env = FileMissing →
   main env w
   = (Thrown (FileNotFound (JSON_FILE_PATH env)),
      logged [ConsoleLog [nl +:+ "Reading data from: " +:+ JSON_FILE_PATH env]]
             w)) ∧
  (sourceFile env = FileUnparseable →
   main env w
   = (Thrown MalformedSource,
      logged [ConsoleLog [nl +:+ "Reading data from: " +:+ JSON_FILE_PATH env]]
             w)) ∧
  (∀ techTree,
     sourceFile env = FileParsed techTree → Reseed.sound techTree →
     falsy (MONGODB_URI env) = true →
     ∃ entries,
       main env w = (Thrown MongoUriNotSet, logged entries w) ∧
       ConsoleLog ["Reference sanity check passed: all nodes have references."]
       ∈ entries).
Proof.
  split_and!.
  - intros Hsrc. unfold main. step.
    by erewrite MainFacts.bind_Thrown
      by (unfold readSource; rewrite Hsrc; reflexivity).
  - intros Hsrc. unfold main. step.
    by erewrite MainFacts.bind_Thrown
      by (unfold readSource; rewrite Hsrc; reflexivity).
  - intros techTree Hsrc [Hcount Hrefs] Huri. run_to_checks Hsrc.
    run_checks Hcount Hrefs. rewrite Huri.
    rewrite !MainFacts.logged_logged. eexists. split; [reflexivity|].
    rewrite !elem_of_app, !list_elem_of_singleton. tauto.
Qed.



(** The line that tells how many documents were removed. *)
Lemma seed_reports_removed env uri
    (finalNodes : list (@RawNode number unknown)) finalEdges w :
  mongoUp env = true →
  ∃ w' entries,
    seed env uri finalNodes finalEdges w = (Ok (), w') ∧
    db w' = {| nodesCollection := finalNodes;
               edgesCollection := finalEdges |} ∧
    exitCode w' = exitCode w ∧
    console w' = console w ++ entries ∧
    ConsoleLog ["   Removed " +:+ pretty (length (nodesCollection (db w)))
                +:+ " node(s) and "
                +:+ pretty (length (edgesCollection (db w)))
                +:+ " edge(s)."] ∈ entries.
Proof.
  intros Hup. unfold seed.
  erewrite MainFacts.bind_Ok by (unfold connect; rewrite Hup; reflexivity).
  do 6 step.
  destruct finalNodes as [|n0 ns]; destruct finalEdges as [|e0 es];
    cbn [Nat.ltb Nat.leb length];
    repeat step;
    (eexists _, _; split; [reflexivity|]);
    cbn [db calls console exitCode logged nodesCollection edgesCollection];
    rewrite <-?app_assoc;
    (split_and!; [reflexivity..|]);
    rewrite !elem_of_app, !list_elem_of_singleton; tauto.
Qed.

Lemma main_reports_removed env techTree w :
  sourceFile env = FileParsed techTree → Reseed.sound techTree →
  falsy (MONGODB_URI env) = false → mongoUp env = true →
  ∃ w' entries,
    main env w = (Ok (), w') ∧
    db w' = {| nodesCollection :=
                 List.map normalizeNode (nodes (graph techTree));
               edgesCollection :=
                 normalizedEdgesOf (edges (graph techTree)) |} ∧
    exitCode w' = exitCode w ∧
    console w' = console w ++ entries ∧
    ConsoleLog ["   Removed " +:+ pretty (length (nodesCollection (db w)))
                +:+ " node(s) and "
                +:+ pretty (length (edgesCollection (db w)))
                +:+ " edge(s)."] ∈ entries.
Proof.
  intros Hsrc [Hcount Hrefs] Huri Hup. run_to_checks Hsrc.
  run_checks Hcount Hrefs. rewrite Huri. step.
  rewrite !MainFacts.logged_logged. unfold tryCatchFinally.
  match goal with
  | |- context [seed ?e ?u ?a ?b ?W] =>
      destruct (seed_reports_removed e u a b W Hup)
        as (w1 & seeded & -> & Hdb & Hexit & Hconsole & Hremoved)
  end.
  step. unfold console_log, print.
  eexists _, _. split; [reflexivity|].
  cbn [db calls console exitCode logged] in *.
  rewrite Hdb, Hexit, Hconsole, <-!app_assoc.
  split_and!; [done..|reflexivity|].
  rewrite !elem_of_app. tauto.
Qed.

(** X14. Seeding twice is seeding once. After a run that completes, a
    second run in the same surroundings completes too and leaves the
    store with the same two collections: the delete-all-then-insert-all
    replacement does not accumulate. The second run reports having
    removed exactly the documents the first one had inserted, and neither
    run touches the exit code. *)
Theorem main_twice env techTree w :
  sourceFile env = FileParsed techTree → Reseed.sound techTree →
  falsy (MONGODB_URI env) = false → mongoUp env = true →
  let finalNodes := List.map normalizeNode (nodes (graph techTree)) in
  let finalEdges := normalizedEdgesOf (edges (graph techTree)) in
  ∃ w1 w2 entries,
    main env w = (Ok (), w1) ∧ main env w1 = (Ok (), w2) ∧
    db w2 = db w1 ∧ exitCode w2 = exitCode w ∧
    console w2 = console w1 ++ entries ∧
    ConsoleLog ["   Removed " +:+ pretty (length finalNodes)
                +:+ " node(s) and " +:+ pretty (length finalEdges)
                +:+ " edge(s)."] ∈ entries.
Proof.
  intros Hsrc Hsound Huri Hup finalNodes finalEdges.
  destruct (main_reports_removed env techTree w Hsrc Hsound Huri Hup)
    as (w1 & entries1 & Hrun1 & Hdb1 & Hexit1 & _).
  destruct (main_reports_removed env techTree w1 Hsrc Hsound Huri Hup)
    as (w2 & entries2 & Hrun2 & Hdb2 & Hexit2 & Hconsole2 & Hremoved).
  exists w1, w2, entries2. rewrite Hdb1 in Hremoved.
  split_and!; [done|done|congruence|congruence|done|exact Hremoved].
Qed.

End Run.

Lemma fanOut_sound : Reseed.sound Samples.fanOut.
Proof.
  split; [reflexivity|]. intros n Hn.
  repeat (apply elem_of_cons in Hn as [->|Hn]);
    [by eexists _, _..|by apply elem_of_nil in Hn].
Qed.

(** X11 on the fan-out document with a server that does not answer: the
    store keeps its old documents and the exit code is 1. *)
Lemma main_server_unreachable_example :
  Reseed.sound Samples.fanOut ∧
  ∃ w',
    main (MoreSamples.envDown Samples.fanOut) Samples.world = (Ok (), w') ∧
    db w' = db Samples.world ∧
    calls w' = [Connect "mongodb://localhost:27017"; Close] ∧
    exitCode w' = Some 1.
Proof.
  split; [exact fanOut_sound|].
  destruct (main_server_unreachable (MoreSamples.envDown Samples.fanOut)
              Samples.fanOut Samples.world eq_refl fanOut_sound
              eq_refl eq_refl)
    as (w' & entries & Hrun & Hdb & Hcalls & Hexit & _).
  exists w'. split_and!; [exact Hrun | exact Hdb | exact Hcalls | exact Hexit].
Defined.

(** X14 on the fan-out document: the second run leaves the store of the
    first. *)
Lemma main_twice_example :
  ∃ w1 w2,
    main (Samples.env Samples.fanOut) Samples.world = (Ok (), w1) ∧
    main (Samples.env Samples.fanOut) w1 = (Ok (), w2) ∧
    db w2 = db w1 ∧ exitCode w2 = None.
Proof.
  destruct (main_twice (Samples.env Samples.fanOut) Samples.fanOut
              Samples.world eq_refl fanOut_sound eq_refl eq_refl)
    as (w1 & w2 & entries & Hfirst & Hsecond & Hdb & Hexit & _).
  exists w1, w2.
  split_and!; [exact Hfirst | exact Hsecond | exact Hdb | exact Hexit].
Defined.

End MainExtras.

(** ** The nuclear script *)

Module NuclearFacts.
Import Seed.

Ltac step := erewrite MainFacts.bind_Ok by reflexivity.

Ltac run_to_checks Hsrc :=
  unfold Nuclear.main;
  step;
  erewrite MainFacts.bind_Ok
    by (unfold Nuclear.readSource; rewrite Hsrc; reflexivity);
  do 2 step;
  match goal with
  | |- context [(normalizeNodes ?ns ≫= _) ?W] =>
      let entry := fresh "entry" in
      let Hrun := fresh "Hrun" in
      destruct (NodeFacts.normalizeNodes_run ns W) as [entry Hrun];
      erewrite MainFacts.bind_Ok by exact Hrun; clear Hrun
  end;
  cbv zeta; step;
  erewrite MainFacts.bind_Ok
    by (unfold runEdgeSanityCheck;
        rewrite bool_decide_false by (by intros ?); reflexivity).

Section Run.

Context {number unknown : Type} `{!JsNumber number}.
Implicit Types (w : @World number unknown).
Implicit Types (env : @Nuclear.Env number unknown).
Implicit Types (techTree : @TechTreeData number unknown NormalizedEdge).

Lemma nuclear_seed_run env uri (finalNodes : list (@RawNode number unknown))
    finalEdges w :
  Nuclear.mongoUp env = true →
  ∃ w' entries,
    Nuclear.seed env uri finalNodes finalEdges w = (Ok (), w') ∧
    db w' = {| nodesCollection := finalNodes;
               edgesCollection := finalEdges |} ∧
    calls w' = calls w
      ++ [Connect uri; Ping; DeleteManyNodes; DeleteManyEdges]
      ++ (if 0 <? length finalNodes then [InsertManyNodes finalNodes] else [])
      ++ (if 0 <? length finalEdges then [InsertManyEdges finalEdges] else []) ∧
    console w' = console w ++ entries ∧
    exitCode w' = exitCode w.
Proof.
  intros Hup. unfold Nuclear.seed.
  erewrite MainFacts.bind_Ok
    by (unfold Nuclear.connect; rewrite Hup; reflexivity).
  do 6 step.
  destruct finalNodes as [|n0 ns]; destruct finalEdges as [|e0 es];
    cbn [Nat.ltb Nat.leb length];
    repeat step;
    (eexists _, _; split; [reflexivity|]);
    cbn [db calls console exitCode logged nodesCollection edgesCollection];
    rewrite <-?app_assoc; split_and!; reflexivity.
Qed.

(** X15. The nuclear script stores its edges as it read them. On a
    parsed document whose nodes all cite something, with the connection
    string set and the server up, [main] completes and the store holds
    the normalised nodes and exactly the edges of the document, in
    order, with the identifiers they came with: nothing is derived,
    dropped or merged, whatever the edges are. *)
Theorem main_stores_edges_verbatim env techTree w :
  Nuclear.sourceFile env = Nuclear.FileParsed techTree →
  (∀ n, n ∈ nodes (graph techTree) → ∃ r refs, references n = Some (r :: refs)) →
  falsy (Nuclear.MONGODB_URI env) = false → Nuclear.mongoUp env = true →
  ∃ w',
    Nuclear.main env w = (Ok (), w') ∧
    db w' = {| nodesCollection :=
                 List.map normalizeNode (nodes (graph techTree));
               edgesCollection := edges (graph techTree) |} ∧
    exitCode w' = exitCode w.
Proof.
  intros Hsrc Hrefs Huri Hup. run_to_checks Hsrc.
  erewrite MainFacts.bind_Ok
    by (by apply MainFacts.runReferenceSanityCheck_passes).
  match goal with
  | |- context [(runIdConsistencyCheck ?a ?b ≫= _) ?W] =>
      destruct (MainFacts.runIdConsistencyCheck_run a b W)
        as (report & Hrun & _);
      erewrite MainFacts.bind_Ok by exact Hrun; clear Hrun
  end.
  rewrite Huri. step. rewrite !MainFacts.logged_logged.
  unfold tryCatchFinally.
  match goal with
  | |- context [Nuclear.seed ?e ?u ?a ?b ?W] =>
      destruct (nuclear_seed_run e u a b W Hup)
        as (w1 & seeded & -> & Hdb & _ & _ & Hexit)
  end.
  step. unfold console_log, print. eexists. split; [reflexivity|].
  cbn [db calls console exitCode logged] in *. by rewrite Hdb, Hexit.
Qed.


End Run.

Lemma nuclearDocument_cited n :
  n ∈ nodes (graph MoreSamples.nuclearDocument) →
  ∃ r refs, references n = Some (r :: refs).
Proof.
  intros Hn.
  repeat (apply elem_of_cons in Hn as [->|Hn]);
    [by eexists _, _..|by apply elem_of_nil in Hn].
Qed.

(** X15 on a document with a repeated edge and an edge without a
    source: all three are stored. *)
Lemma main_stores_edges_verbatim_example :
  ∃ w',
    Nuclear.main MoreSamples.nuclearEnv Samples.world = (Ok (), w') ∧
    edgesCollection (db w')
    = edges (graph MoreSamples.nuclearDocument) ∧
    length (edgesCollection (db w')) = 3.
Proof.
  destruct (main_stores_edges_verbatim MoreSamples.nuclearEnv
              MoreSamples.nuclearDocument Samples.world eq_refl
              nuclearDocument_cited eq_refl eq_refl)
    as (w' & Hrun & Hdb & _).
  exists w'. rewrite Hdb. split_and!; [exact Hrun | reflexivity | reflexivity].
Defined.


End NuclearFacts.

(** ** More of the view *)

Module ViewExtras.
Import View Machine.

(** *** Categories offered and categories filtered *)

Lemma categories_fold (ns : list UiNode.t) (s : list string) (y : string) :
  y ∈ foldl (λ categories node,
               match category (UiNode.data node) with
               | Some (String c rest) => Seed.setAdd categories (String c rest)
               | Some EmptyString | None => categories
               end) s ns
  ↔ y ∈ s ∨ ∃ n, n ∈ ns ∧ category (UiNode.data n) = Some y ∧ y ≠ "".
Proof.
  revert s. induction ns as [|n0 ns IH]; intros s; simpl.
  - split; [by left|]. intros [?|(n & Hn & _)]; [done|].
    by apply elem_of_nil in Hn.
  - rewrite IH. split.
    + intros [Hy|(n & Hn & ?)].
      * destruct (category (UiNode.data n0)) as [[|c rest]|] eqn:Hc;
          [by left..| |by left].
        apply CheckExtras.setAdd_elem in Hy as [?| ->]; [by left|].
        right. exists n0. split_and!; [apply list_elem_of_here|done..].
      * right. exists n. split; [by apply list_elem_of_further|done].
    + intros [Hy|(n & Hn & Hc & Hne)].
      * left. destruct (category (UiNode.data n0)) as [[|c rest]|]; [done| |done].
        apply CheckExtras.setAdd_elem. by left.
      * apply elem_of_cons in Hn as [->|Hn]; [|right; by exists n].
        left. rewrite Hc. destruct y as [|c rest]; [done|].
        apply CheckExtras.setAdd_elem. by right.
Qed.

Lemma categories_fold_NoDup (ns : list UiNode.t) (s : list string) :
  NoDup s →
  NoDup (foldl (λ categories node,
                  match category (UiNode.data node) with
                  | Some (String c rest) =>
                      Seed.setAdd categories (String c rest)
                  | Some EmptyString | None => categories
                  end) s ns).
Proof.
  revert s. induction ns as [|n0 ns IH]; intros s Hs; simpl; [done|].
  apply IH. destruct (category (UiNode.data n0)) as [[|c rest]|]; [done| |done].
  by apply CheckExtras.setAdd_NoDup.
Qed.

Lemma uniqueCategories_elem techTree c :
  c ∈ uniqueCategories (Some techTree) ↔
  c = "All" ∨
  ∃ n, n ∈ tt_nodes techTree ∧ category (UiNode.data n) = Some c ∧ c ≠ "".
Proof.
  unfold uniqueCategories. rewrite merge_sort_Permutation, categories_fold.
  change (Seed.setAdd [] "All") with ["All"].
  by rewrite list_elem_of_singleton.
Qed.

(** X17. The categories offered by the selector. Before the tree is
    fetched the list is empty. Afterwards it holds the sentinel ["All"]
    and the categories of the nodes that have a non-empty one, and
    nothing else; each appears once, and the list is in increasing order
    of code units. *)
Theorem uniqueCategories_spec techTree :
  uniqueCategories None = [] ∧
  StronglySorted String.le (uniqueCategories (Some techTree)) ∧
  NoDup (uniqueCategories (Some techTree)) ∧
  ∀ c, c ∈ uniqueCategories (Some techTree) ↔
       c = "All" ∨
       ∃ n, n ∈ tt_nodes techTree ∧
            category (UiNode.data n) = Some c ∧ c ≠ "".
Proof.
  unfold uniqueCategories. split_and!.
  - done.
  - apply StronglySorted_merge_sort; apply _.
  - rewrite merge_sort_Permutation.
    apply categories_fold_NoDup. by apply NoDup_singleton.
  - apply uniqueCategories_elem.
Qed.

(** X18. Every category the selector offers, the sentinel apart, shows
    something: filtering the tree to it keeps at least one node. *)
Theorem offered_category_is_inhabited techTree c :
  c ∈ uniqueCategories (Some techTree) → c ≠ "All" →
  tt_nodes (filteredTechTree techTree c) ≠ [].
Proof.
  intros Hc Hall.
  apply uniqueCategories_elem in Hc as [?|(n & Hn & Hcat & _)]; [done|].
  unfold filteredTechTree. rewrite bool_decide_true by done.
  cbn [tt_nodes]. intros Hnil.
  assert (n ∈ List.filter (inCategory c) (tt_nodes techTree)) as Hin.
  { apply ViewFacts.elem_of_filter. split; [done|].
    by apply ViewFacts.inCategory_true. }
  rewrite Hnil in Hin. by apply elem_of_nil in Hin.
Qed.

Lemma filter_filter_bool {A} (f : A → bool) (l : list A) :
  List.filter f (List.filter f l) = List.filter f l.
Proof.
  induction l as [|x l IH]; simpl; [done|].
  destruct (f x) eqn:Hx; simpl; [|done]. by rewrite Hx, IH.
Qed.

Lemma existsb_filter {A} (f g : A → bool) (l : list A) :
  existsb g (List.filter f l) = existsb (λ x, f x && g x) l.
Proof.
  induction l as [|x l IH]; simpl; [done|].
  destruct (f x); simpl; by rewrite IH.
Qed.

Lemma existsb_pointwise {A} (f g : A → bool) (l : list A) :
  (∀ x, f x = g x) → existsb f l = existsb g l.
Proof. intros Hfg. induction l as [|x l IH]; simpl; [done|]. by rewrite Hfg, IH. Qed.

(** X19. The category filter is idempotent: filtering an
    already-filtered tree to the same category changes nothing, be it a
    category or the sentinel. *)
Theorem filteredTechTree_idempotent techTree selectedCategory :
  filteredTechTree (filteredTechTree techTree selectedCategory)
                   selectedCategory
  = filteredTechTree techTree selectedCategory.
Proof.
  unfold filteredTechTree. case_bool_decide as Hsel; [|done].
  cbn [tt_nodes tt_edges]. rewrite filter_filter_bool. f_equal.
  rewrite <-(filter_filter_bool _ (tt_edges techTree)) at 2.
  apply List.filter_ext. intros e. rewrite !existsb_filter. f_equal.
  - apply existsb_pointwise. intros n.
    by destruct (inCategory selectedCategory n), (bool_decide _).
  - apply existsb_pointwise. intros n.
    by destruct (inCategory selectedCategory n), (bool_decide _).
Qed.

Lemma filter_none {A} (f : A → bool) (l : list A) :
  (∀ x, In x l → f x = false) → List.filter f l = [].
Proof.
  induction l as [|x l IH]; intros Hl; simpl; [done|].
  rewrite Hl by (by left). apply IH. intros y Hy. apply Hl. by right.
Qed.

(** X20. Two different categories have nothing in common: filtering to
    one and then to another leaves no node and no edge. *)
Theorem filteredTechTree_disjoint techTree c1 c2 :
  c1 ≠ "All" → c2 ≠ "All" → c1 ≠ c2 →
  filteredTechTree (filteredTechTree techTree c1) c2
  = {| tt_nodes := []; tt_edges := [] |}.
Proof.
  intros H1 H2 Hne. unfold filteredTechTree.
  rewrite !bool_decide_true by done. cbn [tt_nodes tt_edges].
  assert (List.filter (inCategory c2)
            (List.filter (inCategory c1) (tt_nodes techTree)) = []) as Hnodes.
  { apply filter_none. intros n [_ Hn]%filter_In.
    apply ViewFacts.inCategory_true in Hn. unfold inCategory.
    apply bool_decide_eq_false. congruence. }
  rewrite Hnodes. f_equal. apply filter_none. intros e _.
  rewrite !existsb_filter.
  replace (existsb _ (tt_nodes techTree)) with false; [done|].
  symmetry. apply not_true_is_false.
  intros (n & _ & [H1n [_ H2n]%andb_prop]%andb_prop)%existsb_exists.
  apply ViewFacts.inCategory_true in H1n, H2n. congruence.
Qed.

(** *** Neighbourhoods *)

Lemma highlighted_eq (h1 h2 : HighlightedElements) :
  nodeIds h1 = nodeIds h2 → edgeIds h1 = edgeIds h2 → h1 = h2.
Proof. destruct h1, h2. simpl. by intros -> ->. Qed.

(** X21. The neighbourhood does not depend on the order of the edges,
    and the neighbourhood over two lists of edges put end to end is the
    union of the two neighbourhoods, for the nodes and for the edges. *)
Theorem findConnectedElements_union nodeId es1 es2 :
  nodeIds (findConnectedElements nodeId (es1 ++ es2))
  = nodeIds (findConnectedElements nodeId es1)
    ∪ nodeIds (findConnectedElements nodeId es2) ∧
  edgeIds (findConnectedElements nodeId (es1 ++ es2))
  = edgeIds (findConnectedElements nodeId es1)
    ∪ edgeIds (findConnectedElements nodeId es2) ∧
  (es1 ≡ₚ es2 →
   findConnectedElements nodeId es1 = findConnectedElements nodeId es2).
Proof.
  unfold findConnectedElements. split_and!.
  - apply set_eq. intros x.
    rewrite elem_of_union, !ViewFacts.foldl_visitEdge_nodeIds.
    setoid_rewrite elem_of_app. split.
    + intros [?|(e & [?|?] & ?)]; [by left; left|left|right]; right;
        by exists e.
    + intros [[?|(e & ? & ?)]|[?|(e & ? & ?)]]; [by left| |by left|];
        right; exists e; tauto.
  - apply set_eq. intros x.
    rewrite elem_of_union, !ViewFacts.foldl_visitEdge_edgeIds.
    setoid_rewrite elem_of_app. split.
    + intros [?|(e & [?|?] & ?)]; [by left; left|left|right]; right;
        by exists e.
    + intros [[?|(e & ? & ?)]|[?|(e & ? & ?)]]; [by left| |by left|];
        right; exists e; tauto.
  - intros Hperm. apply highlighted_eq; apply set_eq; intros x.
    + rewrite !ViewFacts.foldl_visitEdge_nodeIds.
      by setoid_rewrite Hperm.
    + rewrite !ViewFacts.foldl_visitEdge_edgeIds.
      by setoid_rewrite Hperm.
Qed.

(** X22. Being a neighbour is symmetric: [y] is in the neighbourhood of
    [x] exactly when [x] is in the neighbourhood of [y], over the same
    edges. *)
Theorem findConnectedElements_symmetric x y allEdges :
  y ∈ nodeIds (findConnectedElements x allEdges) ↔
  x ∈ nodeIds (findConnectedElements y allEdges).
Proof.
  unfold findConnectedElements.
  rewrite !ViewFacts.foldl_visitEdge_nodeIds. simpl.
  rewrite !elem_of_singleton. split.
  - intros [->|(e & He & Hadj)]; [by left|]. right. exists e. tauto.
  - intros [->|(e & He & Hadj)]; [by left|]. right. exists e. tauto.
Qed.

(** *** The handlers as a state machine *)

Lemma run_snoc adminPassword actions a :
  run adminPassword (actions ++ [a])
  = step adminPassword (run adminPassword actions) a.
Proof. unfold run. by rewrite foldl_app. Qed.

Lemma coherent_initial : coherent initialState.
Proof.
  unfold coherent. cbn. split_and!; done.
Qed.

Lemma coherent_step adminPassword s a :
  coherent s → coherent (step adminPassword s a).
Proof.
  intros (Hflag & Hanchor & Hsearch & Hsel).
  destruct a as [innerWidth nodeId|nodeId|mode| |value|value|password|confirmed
                | | | | | |layoutedNodes layoutedEdges]; cbn [step].
  - unfold handleShowDetails.
    destruct (findNode nodeId (nodes s)) as [node|]; [|done].
    destruct (innerWidth <? 768); (split_and!; [done|by eexists|done|done]).
  - unfold handleShowConnected.
    destruct (findNode nodeId (nodes s)) as [node|]; [|done].
    split_and!; [split; [by eexists|done]|by eexists|done|done].
  - split_and!; [split; [done|by intros [? [=]]]|by intros [? [=]]|done|done].
  - split_and!; [split; [done|by intros [? [=]]]|by intros [? [=]]|done|done].
  - split_and!; [split; [done|by intros [? [=]]]|by intros [? [=]]|done|done].
  - done.
  - unfold handleEnterEditMode.
    destruct password as [typed|], adminPassword as [expected|]; try done.
    by case_bool_decide.
  - by destruct confirmed.
  - done.
  - done.
  - done.
  - split_and!; [done..| |done]. intros Hc. cbn.
    by destruct (Hsearch Hc) as [-> _].
  - done.
  - done.
Qed.

(** X23. What no sequence of gestures can break. In every state the
    component reaches from its initial state: connected-only is on
    exactly when an anchor is set; an anchor comes with a selected node;
    connected-only never coexists with a search, the search box and the
    search term being empty then; and nothing is highlighted unless a
    node is selected. *)
Theorem reachable_states_are_coherent adminPassword actions :
  coherent (run adminPassword actions).
Proof.
  induction actions as [|a actions IH] using rev_ind.
  - apply coherent_initial.
  - rewrite run_snoc. by apply coherent_step.
Qed.

Lemma isEditing_step adminPassword s a :
  isEditing (step adminPassword s a) = true →
  isEditing s = true ∨
  ∃ expected, adminPassword = Some expected ∧ a = EnterEditMode (Some expected).
Proof.
  destruct a as [innerWidth nodeId|nodeId|mode| |value|value|password|confirmed
                | | | | | |layoutedNodes layoutedEdges]; cbn [step];
    try (by left).
  - unfold handleShowDetails.
    destruct (findNode nodeId (nodes s)); [|by left].
    destruct (innerWidth <? 768); by left.
  - unfold handleShowConnected.
    destruct (findNode nodeId (nodes s)); by left.
  - unfold handleEnterEditMode.
    destruct password as [typed|], adminPassword as [expected|];
      try (by left).
    case_bool_decide as Heq; [|by left]. subst. right. by eexists.
  - destruct confirmed; [done|by left].
Qed.

(** X24. The way into edit mode. If the component is in edit mode after
    some sequence of gestures, then an administrator password is
    configured and, at some point, exactly that password was typed into
    the prompt; without a configured password edit mode is never
    entered. *)
Theorem edit_mode_needs_the_password adminPassword actions :
  isEditing (run adminPassword actions) = true →
  ∃ expected,
    adminPassword = Some expected ∧ EnterEditMode (Some expected) ∈ actions.
Proof.
  induction actions as [|a actions IH] using rev_ind; [done|].
  rewrite run_snoc. intros [Hbefore|(expected & -> & ->)]%isEditing_step.
  - destruct (IH Hbefore) as (expected & -> & Hin). exists expected.
    split; [done|]. apply elem_of_app. by left.
  - exists expected. split; [done|]. apply elem_of_app. right.
    apply list_elem_of_here.
Qed.

(** X18 and X20 on the tree with two categories. *)
Lemma offered_category_is_inhabited_example :
  "cat2" ∈ uniqueCategories (Some Samples.twoCategories) ∧
  tt_nodes (filteredTechTree Samples.twoCategories "cat2") ≠ [].
Proof.
  assert (Hin : "cat2" ∈ uniqueCategories (Some Samples.twoCategories))
    by (refine (bool_decide_unpack _ _); vm_compute; exact I).
  split; [exact Hin|].
  apply (offered_category_is_inhabited Samples.twoCategories "cat2" Hin).
  discriminate.
Defined.

Lemma filteredTechTree_disjoint_example :
  filteredTechTree (filteredTechTree Samples.twoCategories "cat1") "cat2"
  = {| tt_nodes := []; tt_edges := [] |}.
Proof.
  apply (filteredTechTree_disjoint Samples.twoCategories "cat1" "cat2");
    discriminate.
Defined.

(** X24 on one run: the right password after a wrong one. *)
Lemma edit_mode_needs_the_password_example :
  isEditing (run (Some "secret")
               [EnterEditMode (Some "guess"); EnterEditMode (Some "secret")])
  = true ∧
  ∃ expected,
    Some "secret" = Some expected ∧
    EnterEditMode (Some expected)
    ∈ [EnterEditMode (Some "guess"); EnterEditMode (Some "secret")].
Proof.
  split; [reflexivity|].
  apply (edit_mode_needs_the_password (Some "secret")
           [EnterEditMode (Some "guess"); EnterEditMode (Some "secret")]).
  reflexivity.
Defined.

End ViewExtras.

(** ** From a Python literal to JSON *)

Module PythonDictFacts.
Import PythonDict.

Lemma app_String c s t : String c s +:+ t = String c (s +:+ t).
Proof. reflexivity. Qed.

Lemma app_empty s : "" +:+ s = s.
Proof. reflexivity. Qed.

Lemma app_assoc_string s t u : (s +:+ t) +:+ u = s +:+ (t +:+ u).
Proof. induction s as [|c s IH]; [done|]. by rewrite !app_String, IH. Qed.

Lemma allChars_app p s t :
  Digits.allChars p (s +:+ t) = Digits.allChars p s && Digits.allChars p t.
Proof.
  induction s as [|c s IH]; [done|].
  rewrite app_String. cbn [Digits.allChars]. by rewrite IH, andb_assoc.
Qed.

Lemma allChars_impl (p q : ascii → bool) s :
  (∀ c, p c = true → q c = true) →
  Digits.allChars p s = true → Digits.allChars q s = true.
Proof.
  intros Hpq. induction s as [|c s IH]; [done|]. cbn [Digits.allChars].
  intros [Hc Hs]%andb_prop. by rewrite (Hpq c Hc), IH.
Qed.

Lemma prefix_head_ne p0 pattern c rest :
  c ≠ p0 → String.prefix (String p0 pattern) (String c rest) = false.
Proof. intros Hne. cbn. by destruct (ascii_dec p0 c) as [->|]. Qed.

Lemma prefix_app pattern rest : String.prefix pattern (pattern +:+ rest) = true.
Proof.
  induction pattern as [|c pattern IH]; [by destruct rest|].
  rewrite app_String. cbn. by destruct (ascii_dec c c).
Qed.

(** *** Replacing a fixed text *)

Lemma replaceAllFrom_skip pattern replacement passed rest :
  replaceAllFrom pattern replacement (String.length passed) (passed +:+ rest)
  = replaceAllFrom pattern replacement 0 rest.
Proof.
  induction passed as [|c passed IH]; [by destruct rest|].
  rewrite app_String. cbn [String.length replaceAllFrom]. exact IH.
Qed.

Lemma replaceAll_without p0 pattern replacement kept rest :
  without p0 kept = true →
  replaceAll (String p0 pattern) replacement (kept +:+ rest)
  = kept +:+ replaceAll (String p0 pattern) replacement rest.
Proof.
  unfold replaceAll, without. induction kept as [|c kept IH]; [done|].
  cbn [Digits.allChars]. intros [Hc Hkept]%andb_prop.
  apply negb_true_iff, bool_decide_eq_false in Hc.
  rewrite !app_String. cbn [replaceAllFrom].
  rewrite prefix_head_ne by done. by rewrite IH.
Qed.

Lemma replaceAll_same p0 pattern replacement kept :
  without p0 kept = true →
  replaceAll (String p0 pattern) replacement kept = kept.
Proof.
  intros Hkept.
  rewrite <-(ScalarExtras.append_empty_r kept) at 1.
  rewrite replaceAll_without by done. apply ScalarExtras.append_empty_r.
Qed.

Lemma replaceAll_match p0 pattern replacement rest :
  replaceAll (String p0 pattern) replacement (String p0 pattern +:+ rest)
  = replacement +:+ replaceAll (String p0 pattern) replacement rest.
Proof.
  unfold replaceAll. rewrite app_String.
  cbn [replaceAllFrom]. rewrite <-app_String, prefix_app.
  replace (String.length (String p0 pattern) - 1) with (String.length pattern)
    by (cbn [String.length]; lia).
  by rewrite replaceAllFrom_skip.
Qed.

(** *** The quoted tokens *)

Lemma upToQuote_content content rest :
  without quote content = true →
  upToQuote (content +:+ String quote rest) = Some content.
Proof.
  unfold without. induction content as [|c content IH].
  - intros _. rewrite app_empty. cbn [upToQuote].
    by rewrite bool_decide_true.
  - cbn [Digits.allChars]. intros [Hc Hcontent]%andb_prop.
    apply negb_true_iff in Hc. rewrite app_String. cbn [upToQuote].
    by rewrite Hc, IH.
Qed.

Lemma requoteFrom_skip passed rest :
  requoteFrom (String.length passed) (passed +:+ rest) = requoteFrom 0 rest.
Proof.
  induction passed as [|c passed IH]; [by destruct rest|].
  rewrite app_String. cbn [String.length requoteFrom]. exact IH.
Qed.

Lemma requote_without kept rest :
  without quote kept = true → requote (kept +:+ rest) = kept +:+ requote rest.
Proof.
  unfold requote, without. induction kept as [|c kept IH]; [done|].
  cbn [Digits.allChars]. intros [Hc Hkept]%andb_prop.
  apply negb_true_iff in Hc. rewrite !app_String. cbn [requoteFrom].
  by rewrite Hc, IH.
Qed.

Lemma requote_token content rest :
  without quote content = true →
  requote (String quote (content +:+ String quote rest))
  = requoted content +:+ requote rest.
Proof.
  intros Hcontent. unfold requote. cbn [requoteFrom].
  rewrite bool_decide_true by done. rewrite upToQuote_content by done.
  f_equal.
  change (String quote rest) with (String quote "" +:+ rest).
  rewrite <-app_assoc_string.
  replace (S (String.length content))
    with (String.length (content +:+ String quote "")).
  - apply requoteFrom_skip.
  - clear. induction content as [|c content IH]; [done|].
    rewrite app_String. cbn [String.length]. by rewrite IH.
Qed.

Lemma requoted_plain content :
  without doubleQuote content = true →
  requoted content = String doubleQuote (content +:+ String doubleQuote "").
Proof.
  intros Hcontent. unfold requoted. by rewrite replaceAll_same.
Qed.

(** *** The Python words *)

Lemma replaceWordFrom_same w0 word replacement kept previousIsWord :
  without w0 kept = true →
  replaceWordFrom (String w0 word) replacement previousIsWord 0 kept = kept.
Proof.
  unfold without. revert previousIsWord.
  induction kept as [|c kept IH]; intros previousIsWord; [done|].
  cbn [Digits.allChars]. intros [Hc Hkept]%andb_prop.
  apply negb_true_iff, bool_decide_eq_false in Hc.
  cbn [replaceWordFrom]. rewrite prefix_head_ne by done.
  rewrite andb_false_r. cbn [andb]. by rewrite IH.
Qed.

(** A stretch without the first letter of the word, closed by a
    character that is not a word character: the search goes on after it
    as from the start of a text. *)
Lemma replaceWordFrom_segment w0 word replacement kept c rest previousIsWord :
  without w0 kept = true → c ≠ w0 → isWordChar c = false →
  replaceWordFrom (String w0 word) replacement previousIsWord 0
    (kept +:+ String c rest)
  = kept +:+ String c (replaceWord (String w0 word) replacement rest).
Proof.
  unfold without, replaceWord. revert previousIsWord.
  induction kept as [|k kept IH]; intros previousIsWord Hkept Hc Hword.
  - rewrite !app_empty. cbn [replaceWordFrom].
    rewrite prefix_head_ne by done. rewrite andb_false_r. cbn [andb].
    by rewrite Hword.
  - cbn [Digits.allChars] in Hkept. apply andb_prop in Hkept as [Hk Hkept].
    apply negb_true_iff, bool_decide_eq_false in Hk.
    rewrite !app_String. cbn [replaceWordFrom].
    rewrite prefix_head_ne by done. rewrite andb_false_r. cbn [andb].
    by rewrite IH.
Qed.

Lemma replaceWord_same w0 word replacement kept :
  without w0 kept = true →
  replaceWord (String w0 word) replacement kept = kept.
Proof. apply replaceWordFrom_same. Qed.

Lemma replaceWord_segment w0 word replacement kept c rest :
  without w0 kept = true → c ≠ w0 → isWordChar c = false →
  replaceWord (String w0 word) replacement (kept +:+ String c rest)
  = kept +:+ String c (replaceWord (String w0 word) replacement rest).
Proof. apply replaceWordFrom_segment. Qed.

Lemma replaceWord_char w0 word replacement c rest :
  c ≠ w0 → isWordChar c = false →
  replaceWord (String w0 word) replacement (String c rest)
  = String c (replaceWord (String w0 word) replacement rest).
Proof.
  intros Hc Hword.
  by rewrite <-(app_empty (String c rest)), replaceWord_segment.
Qed.

Lemma dropChars_app passed rest :
  dropChars (String.length passed) (passed +:+ rest) = rest.
Proof.
  induction passed as [|c passed IH]; [by destruct rest|].
  rewrite app_String. cbn [String.length dropChars]. exact IH.
Qed.

(** Past a match the search goes on at the character after it. *)
Lemma replaceWordFrom_skip w0 word replacement passed c rest previousIsWord :
  c ≠ w0 → isWordChar c = false →
  replaceWordFrom (String w0 word) replacement previousIsWord
    (String.length passed) (passed +:+ String c rest)
  = String c (replaceWord (String w0 word) replacement rest).
Proof.
  intros Hc Hword. revert previousIsWord.
  induction passed as [|k passed IH]; intros previousIsWord.
  - rewrite app_empty. cbn [String.length].
    by rewrite <-(app_empty (String c rest)), replaceWordFrom_segment.
  - rewrite app_String. cbn [String.length replaceWordFrom]. apply IH.
Qed.

Lemma replaceWord_hit w0 word replacement c rest :
  c ≠ w0 → isWordChar c = false →
  replaceWord (String w0 word) replacement
    (String w0 word +:+ String c rest)
  = replacement
    +:+ String c (replaceWord (String w0 word) replacement rest).
Proof.
  intros Hc Hword. unfold replaceWord at 1.
  pose proof (prefix_app (String w0 word) (String c rest)) as Hprefix.
  pose proof (dropChars_app (String w0 word) (String c rest)) as Hdrop.
  rewrite app_String in *. cbn [replaceWordFrom].
  rewrite Hprefix, Hdrop. cbn [startsWithWordChar negb andb].
  rewrite Hword. cbn [negb].
  replace (String.length (String w0 word) - 1) with (String.length word)
    by (cbn [String.length]; lia).
  by rewrite replaceWordFrom_skip.
Qed.

(** *** Single characters and plain texts *)

Lemma replaceAll_char p0 pattern replacement c rest :
  c ≠ p0 →
  replaceAll (String p0 pattern) replacement (String c rest)
  = String c (replaceAll (String p0 pattern) replacement rest).
Proof.
  intros Hc. unfold replaceAll. cbn [replaceAllFrom].
  by rewrite prefix_head_ne.
Qed.

Lemma replaceAll_miss pattern replacement c rest :
  String.prefix pattern (String c rest) = false →
  replaceAll pattern replacement (String c rest)
  = String c (replaceAll pattern replacement rest).
Proof. intros Hmiss. unfold replaceAll. cbn [replaceAllFrom]. by rewrite Hmiss. Qed.

Lemma requote_char c rest :
  c ≠ quote → requote (String c rest) = String c (requote rest).
Proof.
  intros Hc. unfold requote. cbn [requoteFrom].
  by rewrite bool_decide_false.
Qed.

Lemma requote_same kept : without quote kept = true → requote kept = kept.
Proof.
  intros Hkept. rewrite <-(ScalarExtras.append_empty_r kept) at 1.
  rewrite requote_without by done. apply ScalarExtras.append_empty_r.
Qed.

Lemma without_app c0 s t :
  without c0 s = true → without c0 t = true → without c0 (s +:+ t) = true.
Proof. unfold without. intros Hs Ht. by rewrite allChars_app, Hs, Ht. Qed.

Lemma plainChar_ne c c0 : plainChar c = true → plainChar c0 = false → c ≠ c0.
Proof. intros Hc Hc0 ->. congruence. Qed.

Lemma plain_without c0 s :
  plain s = true → plainChar c0 = false → without c0 s = true.
Proof.
  intros Hs Hc0. unfold without. eapply allChars_impl; [|exact Hs].
  intros c Hc. apply negb_true_iff, bool_decide_eq_false.
  by eapply plainChar_ne.
Qed.

Lemma plainContent_plain s : plainContent s = true → plain s = true.
Proof.
  apply allChars_impl. by intros c [Hc _]%andb_prop.
Qed.

Lemma plainContent_without_doubleQuote s :
  plainContent s = true → without doubleQuote s = true.
Proof.
  apply allChars_impl. by intros c [_ Hc]%andb_prop.
Qed.

Lemma without_replaceAll c0 pattern replacement s :
  without c0 replacement = true → without c0 s = true →
  without c0 (replaceAll pattern replacement s) = true.
Proof.
  unfold replaceAll. generalize 0 as skip. intros skip Hr Hs. revert skip.
  induction s as [|c s IH]; intros skip; [done|].
  apply andb_prop in Hs as [Hc Hs]. cbn [replaceAllFrom].
  destruct skip as [|skip]; [|by apply IH].
  destruct (String.prefix pattern (String c s)).
  - apply without_app; [done|by apply IH].
  - unfold without in *. cbn [Digits.allChars]. by rewrite Hc, IH.
Qed.

Lemma requoted_app content rest :
  requoted content +:+ rest
  = String doubleQuote
      (replaceAll (String doubleQuote "") escapedDoubleQuote content
       +:+ String doubleQuote rest).
Proof.
  unfold requoted. rewrite !app_String. f_equal.
  by rewrite app_assoc_string.
Qed.

Lemma replaceAll_match_char p0 replacement rest :
  replaceAll (String p0 "") replacement (String p0 rest)
  = replacement +:+ replaceAll (String p0 "") replacement rest.
Proof. apply (replaceAll_match p0 "" replacement rest). Qed.

Ltac distinct :=
  let H := fresh in intros H; vm_compute in H; discriminate H.

Ltac side := first
  [ assumption
  | reflexivity
  | distinct
  | by apply plain_without
  | by apply plain_without; [apply plainContent_plain|]
  | by apply plainContent_without_doubleQuote
  | by eapply plainChar_ne; [eassumption|]
  | apply without_replaceAll; side
  | apply without_app; side ].

Ltac openMarker :=
  change (replaceAll marker)
    with (replaceAll (String NUL ("SQUOTE" +:+ String NUL ""))).

Ltac passAll := repeat first
  [ rewrite replaceAll_without by side
  | rewrite replaceAll_match
  | rewrite replaceAll_char by side ].

Ltac passQuote := repeat first
  [ rewrite requote_without by side
  | rewrite requote_token by side
  | rewrite requote_char by side ].

Ltac passWord := repeat first
  [ rewrite replaceWord_hit by side
  | rewrite replaceWord_segment by side
  | rewrite replaceWord_char by side ].

(** X25. A text without a quote, a backslash, a NUL character and the
    capitals T, F and N (JSON that has no string and no Python word, for
    one) is returned as it is. *)
Theorem pythonDictToJson_plain raw :
  plain raw = true → pythonDictToJson raw = raw.
Proof.
  intros Hraw. unfold pythonDictToJson, escapedQuote, marker.
  rewrite (replaceAll_same backslash _ _ raw) by side.
  rewrite requote_same by side. rewrite replaceAll_same by side.
  by do 3 rewrite (replaceWord_same _ _ _ raw) by side.
Qed.

Lemma pythonDictToJson_plain_example :
  plain "[1, 2.5, null, true, {}]" = true
  ∧ pythonDictToJson "[1, 2.5, null, true, {}]" = "[1, 2.5, null, true, {}]".
Proof.
  split; [reflexivity|].
  apply (pythonDictToJson_plain "[1, 2.5, null, true, {}]"). reflexivity.
Defined.

(** X26. A quoted text between a plain text and anything else (plain:
    no quote, backslash, NUL, T, F or N) comes out between JSON quotes,
    each JSON quote inside it with a backslash before it, and the
    conversion goes on behind the closing quote as on a text of its own. *)
Theorem pythonDictToJson_string pre content rest :
  plain pre = true → plain content = true →
  pythonDictToJson (pre +:+ String quote (content +:+ String quote rest))
  = pre +:+ String doubleQuote
      (replaceAll (String doubleQuote "") escapedDoubleQuote content
       +:+ String doubleQuote (pythonDictToJson rest)).
Proof.
  intros Hpre Hcontent. unfold pythonDictToJson at 1. unfold escapedQuote.
  openMarker. passAll. passQuote. rewrite requoted_app. passAll.
  by passWord.
Qed.

Lemma pythonDictToJson_string_example :
  plain "{" = true ∧ plain "id" = true
  ∧ pythonDictToJson ("{" +:+ String quote ("id" +:+ String quote ": 1}"))
    = "{" +:+ String doubleQuote
        (replaceAll (String doubleQuote "") escapedDoubleQuote "id"
         +:+ String doubleQuote (pythonDictToJson ": 1}")).
Proof.
  split; [reflexivity|]. split; [reflexivity|].
  apply (pythonDictToJson_string "{" "id" ": 1}"); reflexivity.
Defined.

(** X27. A quote with a backslash before it, inside a quoted text,
    does not end the text: it comes out as a plain apostrophe inside the
    JSON string. *)
Theorem pythonDictToJson_escaped_quote pre before after rest :
  plain pre = true → plainContent before = true →
  plainContent after = true →
  pythonDictToJson
    (pre +:+ String quote
       (before +:+ escapedQuote +:+ after +:+ String quote rest))
  = pre +:+ String doubleQuote
      (before +:+ String quote
         (after +:+ String doubleQuote (pythonDictToJson rest))).
Proof.
  intros Hpre Hbefore Hafter. unfold pythonDictToJson at 1.
  unfold escapedQuote. openMarker. passAll.
  rewrite <-(app_assoc_string marker after), <-(app_assoc_string before).
  passQuote. rewrite requoted_app.
  rewrite (replaceAll_same doubleQuote) by side.
  rewrite !app_assoc_string. passAll.
  rewrite app_String, app_empty. by passWord.
Qed.

Lemma pythonDictToJson_escaped_quote_example :
  plain "[" = true ∧ plainContent "it" = true ∧ plainContent "s" = true
  ∧ pythonDictToJson
      ("[" +:+ String quote ("it" +:+ escapedQuote +:+ "s" +:+ String quote "]"))
    = "[" +:+ String doubleQuote
        ("it" +:+ String quote
           ("s" +:+ String doubleQuote (pythonDictToJson "]"))).
Proof.
  do 3 (split; [reflexivity|]).
  apply (pythonDictToJson_escaped_quote "[" "it" "s" "]"); reflexivity.
Defined.

(** X28. The Python words True, False and None, standing between two
    plain characters that are not word characters, come out as true,
    false and null. *)
Theorem pythonDictToJson_words pre b c rest :
  plain pre = true →
  plainChar b = true → isWordChar b = false →
  plainChar c = true → isWordChar c = false →
  pythonDictToJson (pre +:+ String b ("True" +:+ String c rest))
  = pre +:+ String b ("true" +:+ String c (pythonDictToJson rest))
  ∧ pythonDictToJson (pre +:+ String b ("False" +:+ String c rest))
    = pre +:+ String b ("false" +:+ String c (pythonDictToJson rest))
  ∧ pythonDictToJson (pre +:+ String b ("None" +:+ String c rest))
    = pre +:+ String b ("null" +:+ String c (pythonDictToJson rest)).
Proof.
  intros Hpre Hb Hbword Hc Hcword.
  repeat split; unfold pythonDictToJson at 1; unfold escapedQuote;
    openMarker; passAll; passQuote; passAll; by passWord.
Qed.

Lemma pythonDictToJson_words_example :
  plain "{x:" = true
  ∧ pythonDictToJson ("{x:" +:+ String " " ("None" +:+ String "}" ""))
    = "{x:" +:+ String " " ("null" +:+ String "}" (pythonDictToJson "")).
Proof.
  split; [reflexivity|].
  apply (pythonDictToJson_words "{x:" " " "}" ""); reflexivity.
Defined.

(** X29. The words are replaced inside strings as well: a quoted text
    that is one of the three words comes out as the JSON string of the
    JSON word, not of the Python word. *)
Theorem pythonDictToJson_rewrites_string_values pre rest :
  plain pre = true →
  pythonDictToJson (pre +:+ String quote ("True" +:+ String quote rest))
  = pre +:+ String doubleQuote
      ("true" +:+ String doubleQuote (pythonDictToJson rest))
  ∧ pythonDictToJson (pre +:+ String quote ("False" +:+ String quote rest))
    = pre +:+ String doubleQuote
        ("false" +:+ String doubleQuote (pythonDictToJson rest))
  ∧ pythonDictToJson (pre +:+ String quote ("None" +:+ String quote rest))
    = pre +:+ String doubleQuote
        ("null" +:+ String doubleQuote (pythonDictToJson rest)).
Proof.
  intros Hpre.
  repeat split; unfold pythonDictToJson at 1; unfold escapedQuote;
    openMarker; passAll; passQuote; rewrite requoted_app;
    rewrite (replaceAll_same doubleQuote) by side; passAll; by passWord.
Qed.

Lemma pythonDictToJson_rewrites_string_values_example :
  plain "[" = true
  ∧ pythonDictToJson ("[" +:+ String quote ("None" +:+ String quote "]"))
    = "[" +:+ String doubleQuote
        ("null" +:+ String doubleQuote (pythonDictToJson "]")).
Proof.
  split; [reflexivity|].
  apply (pythonDictToJson_rewrites_string_values "[" "]"); reflexivity.
Defined.

(** X30. A JSON quote that already has a backslash before it, inside a
    quoted text, gets a second one: the quote is no longer escaped in
    the result. *)
Theorem pythonDictToJson_escapes_twice pre before after rest :
  plain pre = true → plainContent before = true →
  plainContent after = true →
  pythonDictToJson
    (pre +:+ String quote
       (before +:+ escapedDoubleQuote +:+ after +:+ String quote rest))
  = pre +:+ String doubleQuote
      (before +:+ String backslash
         (escapedDoubleQuote
          +:+ after +:+ String doubleQuote (pythonDictToJson rest))).
Proof.
  intros Hpre Hbefore Hafter.
  assert (∀ text,
    replaceAll (String backslash (String quote "")) marker
      (escapedDoubleQuote +:+ text)
    = escapedDoubleQuote
      +:+ replaceAll (String backslash (String quote "")) marker text)
    as Hkept by reflexivity.
  assert (∀ text,
    replaceAll (String doubleQuote "") escapedDoubleQuote
      (escapedDoubleQuote +:+ text)
    = String backslash
        (escapedDoubleQuote
         +:+ replaceAll (String doubleQuote "") escapedDoubleQuote text))
    as Hescaped.
  { intros text. unfold escapedDoubleQuote at 2.
    rewrite !app_String, app_empty. rewrite replaceAll_char by distinct.
    by rewrite replaceAll_match_char. }
  unfold pythonDictToJson at 1. unfold escapedQuote. openMarker.
  passAll. rewrite Hkept. passAll.
  rewrite <-(app_assoc_string escapedDoubleQuote after).
  rewrite <-(app_assoc_string before).
  passQuote. rewrite requoted_app.
  rewrite (replaceAll_without doubleQuote) by side.
  rewrite Hescaped, (replaceAll_same doubleQuote) by side.
  rewrite app_assoc_string, (app_String backslash).
  rewrite <-?(app_assoc_string escapedDoubleQuote after).
  passAll. by passWord.
Qed.

Lemma pythonDictToJson_escapes_twice_example :
  plain "[" = true ∧ plainContent "a" = true ∧ plainContent "b" = true
  ∧ pythonDictToJson
      ("[" +:+ String quote
         ("a" +:+ escapedDoubleQuote +:+ "b" +:+ String quote "]"))
    = "[" +:+ String doubleQuote
        ("a" +:+ String backslash
           (escapedDoubleQuote
            +:+ "b" +:+ String doubleQuote (pythonDictToJson "]"))).
Proof.
  do 3 (split; [reflexivity|]).
  apply (pythonDictToJson_escapes_twice "[" "a" "b" "]"); reflexivity.
Defined.

End PythonDictFacts.
